(** * Declic25 service worker (sw.js): offline cache engine

    A shallow embedding of the decision logic of [sw.js]: the strategy
    selector [getCacheStrategy], the two executors [cacheFirst] and
    [networkFirst], the [fetch] dispatcher, and the cache lifecycle
    (install-time seeding, activate-time pruning, background eviction).

    The browser platform (Cache Storage, [fetch], promises) is modelled as
    an explicit world threaded through a state-and-exception monad; every
    platform call leaves an event in a trace, so that "does not contact the
    network" and "writes nothing" are statements about that trace. *)

From Stdlib Require Import String Ascii List ZArith Bool Lia Permutation.
Import ListNotations.
Open Scope string_scope.

(** ** JavaScript string methods used by the worker *)

Module JsString.

(** [s.startsWith(p)] *)
Definition startsWith (s p : string) : bool := String.prefix p s.

(** [s.endsWith(suf)] *)
Fixpoint endsWith (s suf : string) : bool :=
  String.eqb s suf ||
  match s with
  | EmptyString => false
  | String _ s' => endsWith s' suf
  end.

(** [s.includes(needle)] *)
Fixpoint includes (s needle : string) : bool :=
  String.prefix needle s ||
  match s with
  | EmptyString => false
  | String _ s' => includes s' needle
  end.

End JsString.
Import JsString.

(** ** Data model *)

(** The parsed view of a URL, as [new URL(request.url)] gives it: the
    serialized [href], and its [origin] and [pathname] components. *)
Record URL := mkURL {
  href : string;
  origin : string;
  pathname : string
}.

(** A [Request]: [request.url] is [href (url request)]. *)
Record Request := mkRequest {
  url : URL;
  method : string;
  mode : string
}.

(** A [Response] snapshot: status code, [Content-Type] header and body. *)
Record Response := mkResponse {
  status : Z;
  contentType : string;
  body : string
}.

(** [response.ok]: the status is in the range 200..299. *)
Definition ok (r : Response) : bool :=
  (200 <=? status r)%Z && (status r <=? 299)%Z.

Inductive Strategy := CacheFirst | NetworkFirst.

(** The worker's own location: [self.location.origin] and the directory
    of the worker script, against which [./]-relative URLs are resolved;
    [network] is the outcome of [fetch] for a request, [None] when the
    fetch rejects. *)
Record Env := mkEnv {
  location_origin : string;
  base_path : string;
  network : Request -> option Response
}.

(** ** Constants of sw.js *)

Definition CACHE_NAME := "matteo-declic-v1.0.0".
Definition STATIC_CACHE := "matteo-declic-static-v1.0.0".
Definition DYNAMIC_CACHE := "matteo-declic-dynamic-v1.0.0".

Definition STATIC_ASSETS := ["./"; "./index.html"; "./manifest.json"].
Definition OPTIONAL_ASSETS := ["./icon-192x192.png"; "./icon-512x512.png"].

(** ** Strategy selector *)

Definition getCacheStrategy (env : Env) (request : Request) : Strategy :=
  let url := url request in
  if String.eqb (origin url) (location_origin env) then
    if String.eqb (pathname url) "./" ||
       String.eqb (pathname url) "./index.html" ||
       String.eqb (pathname url) "./manifest.json" ||
       includes (pathname url) "icon-" ||
       endsWith (pathname url) ".html" ||
       endsWith (pathname url) ".js" ||
       endsWith (pathname url) ".css" ||
       endsWith (pathname url) ".png" ||
       endsWith (pathname url) ".jpg" ||
       endsWith (pathname url) ".svg" ||
       endsWith (pathname url) ".ico"
    then CacheFirst
    else NetworkFirst
  else NetworkFirst.

(** ** The platform: cache storage, network, promises *)

(** Association lists keyed by strings, in enumeration order. *)
Section AList.
Variable V : Type.

Definition keys (l : list (string * V)) : list string := map fst l.

Fixpoint alist_get (k : string) (l : list (string * V)) : option V :=
  match l with
  | [] => None
  | (k', v) :: l' => if String.eqb k' k then Some v else alist_get k l'
  end.

Definition alist_remove (k : string) (l : list (string * V)) : list (string * V) :=
  filter (fun kv => negb (String.eqb (fst kv) k)) l.

Definition alist_update (k : string) (f : V -> V) (l : list (string * V))
  : list (string * V) :=
  map (fun kv => if String.eqb (fst kv) k then (fst kv, f (snd kv)) else kv) l.
End AList.

Arguments keys {V} l.
Arguments alist_get {V} k l.
Arguments alist_remove {V} k l.
Arguments alist_update {V} k f l.

(** A [Cache] is an ordered store of entries keyed by request URL;
    [CacheStorage] ([caches]) maps generation names to caches, in creation
    order. *)
Definition Cache := list (string * Response).
Definition CacheStorage := list (string * Cache).

Inductive Event :=
| EvFetch (u : string)
| EvCachesMatch (u : string)
| EvCachesOpen (name : string)
| EvCachesKeys
| EvCachesDelete (name : string)
| EvCacheKeys (name : string)
| EvCachePut (name u : string)
| EvCacheDelete (name u : string)
| EvSkipWaiting
| EvClientsClaim.

Record World := mkWorld {
  caches : CacheStorage;
  trace : list Event
}.

Inductive Error :=
| NetworkError (u : string)
| TypeError (u : string).

(** The settled state of a promise: fulfilled with a value, or rejected. *)
Inductive Outcome (A : Type) :=
| Return (a : A)
| Throw (e : Error).
Arguments Return {A} a.
Arguments Throw {A} e.

(** An [async] computation: a world transformer that settles. *)
Definition Js (A : Type) : Type := World -> Outcome A * World.

Definition ret {A} (a : A) : Js A := fun w => (Return a, w).

Definition throw {A} (e : Error) : Js A := fun w => (Throw e, w).

Definition bind {A B} (c : Js A) (k : A -> Js B) : Js B :=
  fun w =>
    match c w with
    | (Return a, w') => k a w'
    | (Throw e, w') => (Throw e, w')
    end.

(** [try { c } catch (error) { h error }], and [p.catch(h)]. *)
Definition try_catch {A} (c : Js A) (h : Error -> Js A) : Js A :=
  fun w =>
    match c w with
    | (Return a, w') => (Return a, w')
    | (Throw e, w') => h e w'
    end.

Declare Scope js_scope.
Delimit Scope js_scope with js.
Notation "x <- c ;; k" := (bind c (fun x => k))
  (at level 100, c at next level, right associativity) : js_scope.
Notation "c ;; k" := (bind c (fun _ => k))
  (at level 100, right associativity) : js_scope.
Open Scope js_scope.

Definition emit (e : Event) : Js unit :=
  fun w => (Return tt, mkWorld (caches w) (trace w ++ [e])%list).

Definition get_caches : Js CacheStorage := fun w => (Return (caches w), w).

Definition set_caches (cs : CacheStorage) : Js unit :=
  fun w => (Return tt, mkWorld cs (trace w)).

(** [Promise.all(ps)]: every promise of the array has already been
    started, so all of them run; the result rejects when one does. *)
Fixpoint promise_all {A} (ps : list (Js A)) : Js (list A) :=
  match ps with
  | [] => ret []
  | p :: ps' => fun w =>
      let (o, w1) := p w in
      let (os, w2) := promise_all ps' w1 in
      (match o, os with
       | Throw e, _ => Throw e
       | Return _, Throw e => Throw e
       | Return a, Return l => Return (a :: l)
       end, w2)
  end.

(** [Promise.allSettled(ps)]: never rejects. *)
Fixpoint promise_allSettled {A} (ps : list (Js A)) : Js (list (Outcome A)) :=
  match ps with
  | [] => ret []
  | p :: ps' => fun w =>
      let (o, w1) := p w in
      match promise_allSettled ps' w1 with
      | (Return l, w2) => (Return (o :: l), w2)
      | (Throw e, w2) => (Throw e, w2)
      end
  end.

(** Resolution of a [./]-relative URL against the worker's location. *)
Definition resolve (env : Env) (rel : string) : URL :=
  let path :=
    base_path env ++
    (if startsWith rel "./" then substring 2 (String.length rel - 2) rel else rel) in
  mkURL (location_origin env ++ path) (location_origin env) path.

(** [new Request(rel)] *)
Definition requestOf (env : Env) (rel : string) : Request :=
  mkRequest (resolve env rel) "GET" "cors".

(** [fetch(request)] *)
Definition fetch (env : Env) (request : Request) : Js Response :=
  emit (EvFetch (href (url request))) ;;
  match network env request with
  | Some r => ret r
  | None => throw (NetworkError (href (url request)))
  end.

(** The identity of a cache entry: the Cache API compares request URLs
    without their fragment, so an entry is kept under the URL of its
    request up to the first [#]. *)
Fixpoint withoutFragment (u : string) : string :=
  match u with
  | EmptyString => EmptyString
  | String c u' =>
      if Ascii.eqb c "#" then EmptyString else String c (withoutFragment u')
  end.

Definition requestKey (request : Request) : string :=
  withoutFragment (href (url request)).

(** The URL schemes the Cache API stores. *)
Definition isHttp (u : string) : bool :=
  startsWith u "http://" || startsWith u "https://".

(** The first response stored under a key, over the generations in
    creation order. *)
Fixpoint storage_match (u : string) (cs : CacheStorage) : option Response :=
  match cs with
  | [] => None
  | (_, c) :: cs' =>
      match alist_get u c with
      | Some r => Some r
      | None => storage_match u cs'
      end
  end.

(** What [caches.match(request)] answers: nothing for a request that is
    not a GET, and else the first entry whose URL equals the request's up
    to the fragment. *)
Definition matchRequest (request : Request) (cs : CacheStorage)
  : option Response :=
  if String.eqb (method request) "GET"
  then storage_match (requestKey request) cs
  else None.

(** [caches.match(request)]; for [caches.match('./index.html')] the
    request is [new Request('./index.html')]. *)
Definition caches_match (request : Request) : Js (option Response) :=
  emit (EvCachesMatch (href (url request))) ;;
  cs <- get_caches ;;
  ret (matchRequest request cs).

(** [caches.open(name)] creates the cache when there is none; the handle
    it gives is the name. *)
Definition caches_open (name : string) : Js unit :=
  emit (EvCachesOpen name) ;;
  cs <- get_caches ;;
  match alist_get name cs with
  | Some _ => ret tt
  | None => set_caches (cs ++ [(name, [])])%list
  end.

(** [caches.keys()] *)
Definition caches_keys : Js (list string) :=
  emit EvCachesKeys ;;
  cs <- get_caches ;;
  ret (keys cs).

(** [caches.delete(name)] *)
Definition caches_delete (name : string) : Js unit :=
  emit (EvCachesDelete name) ;;
  cs <- get_caches ;;
  set_caches (alist_remove name cs).

(** [cache.keys()] *)
Definition cache_keys (name : string) : Js (list string) :=
  emit (EvCacheKeys name) ;;
  cs <- get_caches ;;
  ret (match alist_get name cs with Some c => keys c | None => [] end).

(** The write of an entry into a generation: an entry under the same key
    is replaced, the new entry is enumerated last. *)
Definition store_entry (name u : string) (r : Response) : Js unit :=
  emit (EvCachePut name u) ;;
  cs <- get_caches ;;
  set_caches (alist_update name (fun c => alist_remove u c ++ [(u, r)])%list cs).

(** What [cache.put] accepts: a GET request over http or https and a
    response whose status is not 206. (A [Vary] header is the other thing
    the Cache API looks at; the responses of this model carry none.) *)
Definition cacheable (request : Request) (r : Response) : bool :=
  String.eqb (method request) "GET" &&
  isHttp (href (url request)) &&
  negb (Z.eqb (status r) 206).

(** [cache.put(request, response)]: the promise rejects, and nothing is
    stored, for what the Cache API does not accept. *)
Definition cache_put (name : string) (request : Request) (r : Response)
  : Js unit :=
  if cacheable request r then store_entry name (requestKey request) r
  else throw (TypeError (href (url request))).

(** A promise that is started and not awaited: its rejection reaches
    nobody. *)
Definition unawaited {A} (c : Js A) : Js unit :=
  fun w => (Return tt, snd (c w)).

(** [cache.delete(request)] *)
Definition cache_delete (name u : string) : Js unit :=
  emit (EvCacheDelete name u) ;;
  cs <- get_caches ;;
  set_caches (alist_update name (alist_remove u) cs).

(** [cache.addAll(rels)]: a URL that is not http or https rejects the
    call before any fetch; every URL is fetched; one failed fetch, or one
    response that is not [ok] or has status 206, rejects the whole call
    and nothing is stored. *)
Definition fetch_ok (env : Env) (rel : string) : Js (string * Response) :=
  let request := requestOf env rel in
  if isHttp (href (url request)) then
    r <- fetch env request ;;
    if ok r && negb (Z.eqb (status r) 206) then ret (requestKey request, r)
    else throw (TypeError (href (url request)))
  else throw (TypeError (href (url request))).

Fixpoint put_all (name : string) (l : list (string * Response)) : Js unit :=
  match l with
  | [] => ret tt
  | (u, r) :: l' => store_entry name u r ;; put_all name l'
  end.

Definition cache_addAll (env : Env) (name : string) (rels : list string) : Js unit :=
  responses <- promise_all (map (fetch_ok env) rels) ;;
  put_all name responses.

(** [cache.add(rel)] *)
Definition cache_add (env : Env) (name : string) (rel : string) : Js unit :=
  cache_addAll env name [rel].

Definition skipWaiting : Js unit := emit EvSkipWaiting.
Definition clients_claim : Js unit := emit EvClientsClaim.

(** ** The executors *)

(** The placeholder served to an offline navigation. *)
Definition offlineResponse : Response :=
  mkResponse 503 "text/html; charset=utf-8" "Application hors ligne".

(** The placeholder of the dispatcher's last resort. *)
Definition unavailableResponse : Response :=
  mkResponse 404 "text/plain; charset=utf-8" "Contenu non disponible".

Definition cacheFirst (env : Env) (request : Request) : Js Response :=
  try_catch
    (cachedResponse <- caches_match request ;;
     match cachedResponse with
     | Some cached => ret cached
     | None =>
         networkResponse <- fetch env request ;;
         (if ok networkResponse then
            caches_open DYNAMIC_CACHE ;;
            unawaited (cache_put DYNAMIC_CACHE request networkResponse)
          else ret tt) ;;
         ret networkResponse
     end)
    (fun error =>
       if String.eqb (mode request) "navigate" then
         fallback <- caches_match (requestOf env "./index.html") ;;
         match fallback with
         | Some main => ret main
         | None => ret offlineResponse
         end
       else throw error).

Definition networkFirst (env : Env) (request : Request) : Js Response :=
  try_catch
    (networkResponse <- fetch env request ;;
     (if ok networkResponse && String.eqb (method request) "GET" then
        caches_open DYNAMIC_CACHE ;;
        unawaited (cache_put DYNAMIC_CACHE request networkResponse)
      else ret tt) ;;
     ret networkResponse)
    (fun error =>
       cachedResponse <- caches_match request ;;
       match cachedResponse with
       | Some cached => ret cached
       | None => throw error
       end).

(** ** The fetch listener *)

(** What the listener leaves the event with: untouched, or a response
    handed to [event.respondWith]. *)
Inductive Interception :=
| PassThrough
| RespondWith (r : Response).

Definition onFetch (env : Env) (request : Request) : Js Interception :=
  if negb (String.eqb (method request) "GET") ||
     startsWith (href (url request)) "chrome-extension://" ||
     startsWith (href (url request)) "moz-extension://"
  then ret PassThrough
  else
    let strategy := getCacheStrategy env request in
    response <-
      try_catch
        (match strategy with
         | CacheFirst => cacheFirst env request
         | NetworkFirst => networkFirst env request
         end)
        (fun error =>
           fallback <-
             (if String.eqb (mode request) "navigate"
              then caches_match (requestOf env "./index.html")
              else ret None) ;;
           match fallback with
           | Some main => ret main
           | None => ret unavailableResponse
           end) ;;
    ret (RespondWith response).

(** ** Cache lifecycle *)

(** The promise the install listener hands to [event.waitUntil]:
    installation succeeds when it fulfils and fails when it rejects. *)
Definition onInstall (env : Env) : Js unit :=
  try_catch
    (promise_all
       [ (caches_open STATIC_CACHE ;;
          cache_addAll env STATIC_CACHE STATIC_ASSETS);
         (caches_open DYNAMIC_CACHE ;;
          promise_allSettled
            (map (fun asset =>
                    try_catch (cache_add env DYNAMIC_CACHE asset)
                              (fun err => ret tt))
                 OPTIONAL_ASSETS) ;;
          ret tt) ] ;;
     skipWaiting)
    (fun error => ret tt).

(** The filter of the activate listener: a generation of the application
    that is not one of the two live ones. *)
Definition isStale (cacheName : string) : bool :=
  startsWith cacheName "matteo-declic-" &&
  negb (existsb (String.eqb cacheName) [STATIC_CACHE; DYNAMIC_CACHE]).

(** The promise the activate listener hands to [event.waitUntil]. *)
Definition onActivate : Js unit :=
  try_catch
    (promise_all
       [ (cacheNames <- caches_keys ;;
          promise_all (map caches_delete (filter isStale cacheNames)) ;;
          ret tt);
         clients_claim ] ;;
     ret tt)
    (fun error => ret tt).

(** The first block of [performBackgroundSync]: capping the dynamic
    generation at 50 entries. *)
Definition evictDynamic : Js unit :=
  caches_open DYNAMIC_CACHE ;;
  requests <- cache_keys DYNAMIC_CACHE ;;
  if Nat.ltb 50 (List.length requests) then
    let oldestRequests := firstn (List.length requests - 50) requests in
    promise_all (map (cache_delete DYNAMIC_CACHE) oldestRequests) ;;
    ret tt
  else ret tt.

Definition performBackgroundSync (env : Env) : Js unit :=
  try_catch
    (evictDynamic ;;
     try_catch (cache_add env DYNAMIC_CACHE "./index.html") (fun err => ret tt))
    (fun error => ret tt).

(** ** Observations on worlds *)

(** The entries of a generation; none when the generation does not exist. *)
Definition entriesOf (name : string) (w : World) : Cache :=
  match alist_get name (caches w) with
  | Some c => c
  | None => []
  end.

(** The generations that belong to the application. *)
Definition appGenerations (w : World) : list string :=
  filter (fun n => startsWith n "matteo-declic-") (keys (caches w)).

(** The events a computation adds to the trace. *)
Definition newEvents (w w' : World) : list Event :=
  skipn (List.length (trace w)) (trace w').

Definition isFetch (e : Event) : bool :=
  match e with EvFetch _ => true | _ => false end.

(** Calls that can change the storage; [caches.open] is one of them, as it
    creates the generation it does not find. *)
Definition isWrite (e : Event) : bool :=
  match e with
  | EvCachePut _ _ | EvCacheDelete _ _ | EvCachesDelete _ | EvCachesOpen _ => true
  | _ => false
  end.

(** Whether a computation called [self.skipWaiting()]. *)
Definition skippedWaiting (es : list Event) : bool :=
  existsb (fun e => match e with EvSkipWaiting => true | _ => false end) es.

(** The URLs a computation asked a generation to delete, in order. *)
Fixpoint deletedFrom (name : string) (es : list Event) : list string :=
  match es with
  | [] => []
  | EvCacheDelete n u :: es' =>
      if String.eqb n name then u :: deletedFrom name es' else deletedFrom name es'
  | _ :: es' => deletedFrom name es'
  end.

(** ** Path predicates of the specification *)

Definition cachedExtensions : list string :=
  ["html"; "js"; "css"; "png"; "jpg"; "svg"; "ico"].

(** The path ends in a dot followed by one of the cached extensions. *)
Definition hasCachedExtension (path : string) : Prop :=
  exists stem ext, In ext cachedExtensions /\ path = stem ++ "." ++ ext.

(** The path names an icon asset: [icon-] occurs in it. *)
Definition namesIcon (path : string) : Prop :=
  exists pre post, path = pre ++ "icon-" ++ post.

(** The path is the app root, the main document or the manifest, as the
    worker spells them. *)
Definition isSeedPath (path : string) : Prop :=
  path = "./" \/ path = "./index.html" \/ path = "./manifest.json".

Definition sameOrigin (env : Env) (request : Request) : Prop :=
  origin (url request) = location_origin env.

(** Boolean twin of [hasCachedExtension]. *)
Definition hasCachedExtensionb (path : string) : bool :=
  existsb (fun ext => endsWith path ("." ++ ext)) cachedExtensions.

(** ** Derived notions *)

(** The generations the activate listener deletes. *)
Definition staleGenerations (w : World) : list string :=
  filter isStale (keys (caches w)).

(** The storage after [caches.open(name)]. *)
Definition opened (name : string) (cs : CacheStorage) : CacheStorage :=
  match alist_get name cs with
  | Some _ => cs
  | None => (cs ++ [(name, [])])%list
  end.

(** The URLs [evictDynamic] deletes: the first [n - 50] of the [n] keys the
    dynamic generation enumerates. *)
Definition oldestRequests (w : World) : list string :=
  let requests := keys (entriesOf DYNAMIC_CACHE w) in
  firstn (List.length requests - 50) requests.

(** A computation that deletes no generation. *)
Definition keepsGenerations {A} (c : Js A) : Prop :=
  forall w n, In n (keys (caches w)) -> In n (keys (caches (snd (c w)))).

(** A computation after which the generation [name] exists. *)
Definition opensGeneration {A} (name : string) (c : Js A) : Prop :=
  forall w, In name (keys (caches (snd (c w)))).

(** ** The other listeners and utilities of sw.js *)

(** [prefetchOracle] *)
Definition prefetchOracle (env : Env) : Js unit :=
  try_catch
    (caches_open DYNAMIC_CACHE ;;
     try_catch (cache_add env DYNAMIC_CACHE "./") (fun err => ret tt))
    (fun error => ret tt).

(** The sync listener: the promise it hands to [event.waitUntil], by tag. *)
Definition onSync (env : Env) (tag : string) : Js unit :=
  if String.eqb tag "background-sync" then performBackgroundSync env
  else if String.eqb tag "oracle-prefetch" then prefetchOracle env
  else ret tt.

(** The filter of [cleanupCaches]: a generation of the application whose
    name does not carry the current version. *)
Definition isOldVersion (name : string) : bool :=
  startsWith name "matteo-declic-" && negb (includes name "v1.0.0").

Definition cleanupCaches : Js unit :=
  try_catch
    (cacheNames <- caches_keys ;;
     let oldCaches := filter isOldVersion cacheNames in
     if Nat.ltb 0 (List.length oldCaches) then
       promise_all (map caches_delete oldCaches) ;;
       ret tt
     else ret tt)
    (fun error => ret tt).

(** [stats[cacheName] = n] on a plain object: the value of an existing
    key is replaced in place, a new key is enumerated last. *)
Definition object_set (k : string) (n : nat) (stats : list (string * nat))
  : list (string * nat) :=
  match alist_get k stats with
  | Some _ => alist_update k (fun _ => n) stats
  | None => (stats ++ [(k, n)])%list
  end.

(** The loop of [getCacheStats]. *)
Fixpoint statsLoop (cacheNames : list string) (stats : list (string * nat))
  : Js (list (string * nat)) :=
  match cacheNames with
  | [] => ret stats
  | cacheName :: rest =>
      if startsWith cacheName "matteo-declic-" then
        caches_open cacheName ;;
        keys <- cache_keys cacheName ;;
        statsLoop rest (object_set cacheName (List.length keys) stats)
      else statsLoop rest stats
  end.

Definition getCacheStats : Js (list (string * nat)) :=
  try_catch
    (cacheNames <- caches_keys ;;
     statsLoop cacheNames [])
    (fun error => ret []).

(** A message event: [event.data?.type] and whether [event.ports[0]]
    exists. *)
Record MessageEvent := mkMessageEvent {
  dataType : option string;
  hasPort : bool
}.

(** What the message listener posts on the port. *)
Inductive Reply :=
| ReplyVersion (version : string)
| ReplySuccess.

(** [event.ports[0]?.postMessage(reply)] *)
Definition postMessage (event : MessageEvent) (reply : Reply) : option Reply :=
  if hasPort event then Some reply else None.

(** The message listener; its result is the reply it posts, if any. *)
Definition onMessage (event : MessageEvent) : Js (option Reply) :=
  match dataType event with
  | Some type =>
      if String.eqb type "SKIP_WAITING" then
        skipWaiting ;; ret None
      else if String.eqb type "GET_VERSION" then
        ret (postMessage event (ReplyVersion CACHE_NAME))
      else if String.eqb type "CLEAR_CACHE" then
        cacheNames <- caches_keys ;;
        promise_all
          (map caches_delete
             (filter (fun name => startsWith name "matteo-declic-") cacheNames)) ;;
        ret (postMessage event ReplySuccess)
      else if String.eqb type "PREFETCH_ORACLE" then
        ret (postMessage event ReplySuccess)
      else ret None
  | None => ret None
  end.

(** ** Notification clicks *)

(** A window client: its URL and whether it has a [navigate] method. *)
Record Client := mkClient {
  clientUrl : string;
  canNavigate : bool
}.

(** What [openOrFocusApp] asks of the platform. *)
Inductive ClientAction :=
| Focus (client : Client)
| Navigate (client : Client) (target : string)
| OpenWindow (target : string).

(** [openOrFocusApp(url)], over the clients [matchAll] returned;
    [canOpen] tells whether [self.clients.openWindow] exists. *)
Fixpoint focusFirst (env : Env) (target : string) (clients : list Client)
  : option (list ClientAction) :=
  match clients with
  | [] => None
  | client :: rest =>
      if includes (clientUrl client) (location_origin env) then
        Some (Focus client ::
              (if canNavigate client && negb (includes (clientUrl client) target)
               then [Navigate client target] else []))
      else focusFirst env target rest
  end.

Definition openOrFocusApp (env : Env) (canOpen : bool) (clients : list Client)
  (target : string) : list ClientAction :=
  match focusFirst env target clients with
  | Some actions => actions
  | None => if canOpen then [OpenWindow target] else []
  end.

(** The notificationclick listener, after [event.notification.close()]:
    [dataUrl] is [event.notification.data?.url]. *)
Definition onNotificationClick (env : Env) (canOpen : bool)
  (clients : list Client) (dataUrl : option string) (action : string)
  : list ClientAction :=
  let urlToOpen :=
    match dataUrl with
    | Some u => if String.eqb u "" then "./" else u
    | None => "./"
    end in
  if String.eqb action "open-oracle" then
    openOrFocusApp env canOpen clients (urlToOpen ++ "&action=oracle")
  else if String.eqb action "dismiss" then []
  else openOrFocusApp env canOpen clients urlToOpen.

(** ** Relations between worlds *)

(** A computation that relates every world to the one it leaves. *)
Definition respects (R : World -> World -> Prop) {A} (c : Js A) : Prop :=
  forall w, R w (snd (c w)).

(** Every generation but [name] is as it was. *)
Definition sameOutside (name : string) (w w' : World) : Prop :=
  forall n, n <> name -> alist_get n (caches w') = alist_get n (caches w).

(** The storage is as it was. *)
Definition sameCaches (w w' : World) : Prop := caches w' = caches w.

(** Every URL that had a cached response still has one. *)
Definition staysCached (w w' : World) : Prop :=
  forall u, storage_match u (caches w) <> None ->
            storage_match u (caches w') <> None.

(** The trace grew by events that satisfy [P]. *)
Definition emitsOnly (P : Event -> Prop) (w w' : World) : Prop :=
  exists es, trace w' = (trace w ++ es)%list /\ Forall P es.

Definition notSkipWaiting (e : Event) : Prop := e <> EvSkipWaiting.

(** Whether a promise fulfilled. *)
Definition fulfilled {A} (o : Outcome A) : bool :=
  match o with Return _ => true | Throw _ => false end.

(** The response [cache.add(rel)] stores, if any: the URL is http or https
    and its fetch gives a response that is [ok] and not a 206. *)
Definition seedResponse (env : Env) (rel : string) : option Response :=
  if isHttp (href (resolve env rel)) then
    match network env (requestOf env rel) with
    | Some r => if ok r && negb (Z.eqb (status r) 206) then Some r else None
    | None => None
    end
  else None.

(** Whether [cache.add(rel)] goes through. *)
Definition fetchable (env : Env) (rel : string) : bool :=
  match seedResponse env rel with
  | Some _ => true
  | None => false
  end.

(** The number of network fetches among events. *)
Definition fetchCount (es : list Event) : nat :=
  List.length (filter isFetch es).

(** The dynamic generation after the eviction block. *)
Definition evicted (w : World) : Cache :=
  fold_left (fun acc u => alist_remove u acc) (oldestRequests w)
    (entriesOf DYNAMIC_CACHE w).

(** The entries of a generation after [cache.add(rel)] on it. *)
Definition added (env : Env) (rel : string) (c : Cache) : Cache :=
  match seedResponse env rel with
  | Some r =>
      (alist_remove (requestKey (requestOf env rel)) c
       ++ [(requestKey (requestOf env rel), r)])%list
  | None => c
  end.

(** The seed of the required assets, and that of the optional ones. *)
Definition seedRequired (env : Env) : Js unit :=
  caches_open STATIC_CACHE ;; cache_addAll env STATIC_CACHE STATIC_ASSETS.

Definition seedOptional (env : Env) : Js unit :=
  caches_open DYNAMIC_CACHE ;;
  promise_allSettled
    (map (fun asset =>
            try_catch (cache_add env DYNAMIC_CACHE asset) (fun err => ret tt))
       OPTIONAL_ASSETS) ;;
  ret tt.

(** A window of the application: its URL contains the worker's origin. *)
Definition isAppWindow (env : Env) (client : Client) : bool :=
  includes (clientUrl client) (location_origin env).

(** The URL a notification click opens. *)
Definition clickTarget (dataUrl : option string) (action : string) : string :=
  let urlToOpen :=
    match dataUrl with
    | Some u => if String.eqb u "" then "./" else u
    | None => "./"
    end in
  if String.eqb action "open-oracle" then urlToOpen ++ "&action=oracle"
  else urlToOpen.

Definition isOpenWindow (a : ClientAction) : bool :=
  match a with OpenWindow _ => true | _ => false end.

(** The world after the unawaited [cache.put] of the executors. *)
Definition afterPut (request : Request) (r : Response) (w : World) : World :=
  if cacheable request r
  then snd (store_entry DYNAMIC_CACHE (requestKey request) r w)
  else w.

(** ** Sample worlds *)

Definition appOrigin : string := "https://declic.example".

(** A worker served from the root of [appOrigin]. *)
Definition sampleEnv (net : Request -> option Response) : Env :=
  mkEnv appOrigin "/" net.

Definition offline : Request -> option Response := fun _ => None.

(** A same-origin GET for [path]. *)
Definition appRequest (path mode : string) : Request :=
  mkRequest (mkURL (appOrigin ++ path) appOrigin path) "GET" mode.

Definition iconRequest : Request := appRequest "/icon-sprite.webp" "no-cors".

Definition page : Response :=
  mkResponse 200 "text/html; charset=utf-8" "<!doctype html>".

Definition notFound : Response := mkResponse 404 "text/plain" "Not Found".

Definition online : Request -> option Response := fun _ => Some page.

(** A network on which everything but the main document can be fetched. *)
Definition mainDocumentDown (request : Request) : option Response :=
  if endsWith (href (url request)) "/index.html" then None else Some page.

(** A storage left by earlier versions and by another application. *)
Definition legacyWorld : World :=
  mkWorld [("matteo-declic-static-v0.9.0", []);
           ("matteo-declic-v1.0.0", []);
           ("weather-app-v3", [])] [].

(** [n] entries with distinct URLs, for [n] up to 200. *)
Definition numberedEntries (n : nat) : Cache :=
  map (fun i => (appOrigin ++ "/api/" ++ String (ascii_of_nat (48 + i)) "", page))
      (seq 0 n).

(** A dynamic generation that holds 73 entries. *)
Definition crowdedWorld : World :=
  mkWorld [(STATIC_CACHE, []); (DYNAMIC_CACHE, numberedEntries 73)] [].

(** A network on which the icons are missing (404) and the rest is served. *)
Definition iconsMissing (request : Request) : option Response :=
  if includes (href (url request)) "icon-" then Some notFound else Some page.

(** Decision of [NoDup] on strings. *)
Fixpoint distinct (l : list string) : bool :=
  match l with
  | [] => true
  | x :: l' => negb (existsb (String.eqb x) l') && distinct l'
  end.

(** A storage holding the app shell and one answer of the oracle. *)
Definition oracleAnswer : Response := mkResponse 200 "application/json" "{}".

Definition shellWorld : World :=
  mkWorld [(STATIC_CACHE, [(appOrigin ++ "/index.html", page)]);
           (DYNAMIC_CACHE, [(appOrigin ++ "/api/oracle", oracleAnswer)])] [].

(** A same-origin GET whose URL carries a fragment. *)
Definition fragmentRequest (path fragment mode : string) : Request :=
  mkRequest (mkURL (appOrigin ++ path ++ "#" ++ fragment) appOrigin path)
    "GET" mode.

(** A same-origin POST. *)
Definition postRequest (path : string) : Request :=
  mkRequest (mkURL (appOrigin ++ path) appOrigin path) "POST" "cors".

(** A GET issued by a Safari extension. *)
Definition safariRequest : Request :=
  mkRequest (mkURL "safari-web-extension://abcdef/popup.js"
               "safari-web-extension://abcdef" "/popup.js") "GET" "no-cors".

(** A partial-content answer. *)
Definition partialPage : Response := mkResponse 206 "text/html" "<!doc".

(** A network that answers the main document with partial content. *)
Definition partialMainDocument (request : Request) : option Response :=
  if endsWith (href (url request)) "/index.html" then Some partialPage
  else Some page.

(** Two windows of the application and one foreign window. *)
Definition sampleClients : list Client :=
  [mkClient "https://elsewhere.example/" true;
   mkClient (appOrigin ++ "/") true;
   mkClient (appOrigin ++ "/?source=notification") false].

(** * Properties *)

(** ** String methods *)

Module JsStringFacts.

Lemma startsWith_spec s p :
  startsWith s p = true <-> exists rest, s = p ++ rest.
Proof.
  unfold startsWith. revert s.
  induction p as [|c p IH]; intros s.
  - destruct s; simpl; split; eauto.
  - destruct s as [|d s]; simpl.
    + split; [discriminate | intros [r Hr]; discriminate].
    + destruct (ascii_dec c d) as [->|Hcd].
      * rewrite IH. split; intros [r Hr]; exists r; congruence.
      * split; [discriminate | intros [r Hr]; congruence].
Qed.

Lemma endsWith_unfold s suf :
  endsWith s suf =
  String.eqb s suf ||
  match s with
  | EmptyString => false
  | String _ s' => endsWith s' suf
  end.
Proof. destruct s; reflexivity. Qed.

Lemma includes_unfold s needle :
  includes s needle =
  startsWith s needle ||
  match s with
  | EmptyString => false
  | String _ s' => includes s' needle
  end.
Proof. destruct s; reflexivity. Qed.

Lemma endsWith_spec s suf :
  endsWith s suf = true <-> exists pre, s = pre ++ suf.
Proof.
  induction s as [|c s IH]; rewrite endsWith_unfold.
  - rewrite orb_false_r, String.eqb_eq. split.
    + intros <-. now exists "".
    + intros [pre Hpre]. destruct pre; simpl in Hpre; [auto | discriminate].
  - rewrite orb_true_iff, String.eqb_eq, IH. split.
    + intros [<- | [pre ->]]; [now exists "" | now exists (String c pre)].
    + intros [pre Hpre]. destruct pre as [|d pre]; simpl in Hpre.
      * now left.
      * right. exists pre. congruence.
Qed.

Lemma includes_spec s needle :
  includes s needle = true <-> exists pre post, s = pre ++ needle ++ post.
Proof.
  induction s as [|c s IH]; rewrite includes_unfold.
  - rewrite orb_false_r, startsWith_spec. split.
    + intros [rest ->]. now exists "", rest.
    + intros [pre [post H]]. destruct pre; simpl in H; [eauto | discriminate].
  - rewrite orb_true_iff, IH, startsWith_spec. split.
    + intros [[rest ->] | [pre [post ->]]].
      * now exists "", rest.
      * now exists (String c pre), post.
    + intros [pre [post H]]. destruct pre as [|d pre]; simpl in H.
      * left. eauto.
      * right. exists pre, post. congruence.
Qed.

(** A string that starts with a slash is none of the dot-relative
    literals the selector compares the path with. *)
Lemma startsWith_slash_not_dot s rest :
  startsWith s "/" = true -> s <> String "." rest.
Proof.
  intros H ->. discriminate H.
Qed.

End JsStringFacts.
Import JsStringFacts.

(** ** Strategy selector *)

Lemma hasCachedExtensionb_spec path :
  hasCachedExtensionb path = true <-> hasCachedExtension path.
Proof.
  unfold hasCachedExtensionb, hasCachedExtension.
  rewrite existsb_exists. split.
  - intros [ext [Hin Hends]]. apply endsWith_spec in Hends.
    destruct Hends as [stem ->]. now exists stem, ext.
  - intros [stem [ext [Hin ->]]]. exists ext. split; [assumption|].
    apply endsWith_spec. now exists stem.
Qed.

Lemma isSeedPath_spec path :
  String.eqb path "./" || String.eqb path "./index.html" ||
  String.eqb path "./manifest.json" = true <-> isSeedPath path.
Proof.
  unfold isSeedPath. rewrite !orb_true_iff, !String.eqb_eq. tauto.
Qed.

(** The selector's test, regrouped: seed path, icon name, extension. *)
Lemma getCacheStrategy_unfold env request :
  getCacheStrategy env request =
  if String.eqb (origin (url request)) (location_origin env) &&
     ((String.eqb (pathname (url request)) "./" ||
       String.eqb (pathname (url request)) "./index.html" ||
       String.eqb (pathname (url request)) "./manifest.json") ||
      includes (pathname (url request)) "icon-" ||
      hasCachedExtensionb (pathname (url request)))
  then CacheFirst else NetworkFirst.
Proof.
  unfold getCacheStrategy, hasCachedExtensionb, cachedExtensions. simpl.
  destruct (String.eqb (origin (url request)) (location_origin env)); simpl;
    [|reflexivity].
  rewrite orb_false_r, <- !orb_assoc. reflexivity.
Qed.

Lemma getCacheStrategy_CacheFirst env request :
  getCacheStrategy env request = CacheFirst <->
  sameOrigin env request /\
  (isSeedPath (pathname (url request)) \/
   namesIcon (pathname (url request)) \/
   hasCachedExtension (pathname (url request))).
Proof.
  rewrite getCacheStrategy_unfold. unfold sameOrigin, namesIcon.
  rewrite <- isSeedPath_spec, <- hasCachedExtensionb_spec, <- includes_spec,
    <- String.eqb_eq, <- !orb_true_iff, <- andb_true_iff, orb_assoc.
  match goal with |- context [if ?b then _ else _] => destruct b end;
    split; congruence.
Qed.

Lemma getCacheStrategy_total env request :
  getCacheStrategy env request = CacheFirst \/
  getCacheStrategy env request = NetworkFirst.
Proof. destruct (getCacheStrategy env request); auto. Qed.

(** C2: the selector answers cache-first exactly for the same-origin
    requests whose path is the app root, the main document or the manifest
    (as the worker spells them), names an icon, or carries one of the cached
    extensions, and network-first for every other request; the root and
    manifest paths of a parsed URL, such as [/] and [/manifest.json], are
    among the network-first ones. The selector is a function of the request and the
    worker's origin alone. *)
Theorem getCacheStrategy_spec :
  forall env request,
    (getCacheStrategy env request = CacheFirst <->
     sameOrigin env request /\
     (isSeedPath (pathname (url request)) \/
      namesIcon (pathname (url request)) \/
      hasCachedExtension (pathname (url request)))) /\
    (getCacheStrategy env request = NetworkFirst <->
     ~ (sameOrigin env request /\
        (isSeedPath (pathname (url request)) \/
         namesIcon (pathname (url request)) \/
         hasCachedExtension (pathname (url request))))) /\
    (forall h o m md,
       Forall (fun path =>
                 getCacheStrategy env (mkRequest (mkURL h o path) m md)
                 = NetworkFirst)
              ["/"; "/manifest.json"; "/Declic25/"; "/Declic25/manifest.json"]).
Proof.
  intros env request. split; [apply getCacheStrategy_CacheFirst|]. split.
  - rewrite <- getCacheStrategy_CacheFirst.
    destruct (getCacheStrategy env request); split; congruence.
  - intros h o m md. unfold getCacheStrategy. simpl.
    destruct (String.eqb o (location_origin env)); repeat constructor.
Qed.

(** C3, the claim as stated fails: a same-origin request for
    [/icon-sprite.webp] has no cached extension, yet the selector answers
    cache-first, because the path contains [icon-]. *)
Lemma icon_without_cached_extension_is_cache_first :
  ~ (sameOrigin (sampleEnv offline) iconRequest /\
     hasCachedExtension (pathname (url iconRequest))) /\
  getCacheStrategy (sampleEnv offline) iconRequest = CacheFirst.
Proof.
  split; [|reflexivity].
  intros [_ H]. apply hasCachedExtensionb_spec in H. discriminate H.
Qed.

(** C3, amended: a same-origin request whose path carries a cached
    extension is cache-first; so is a same-origin request whose path
    contains [icon-], whatever its extension; every other request whose
    path is a URL path (it starts with a slash) is network-first. *)
Theorem getCacheStrategy_extension_or_icon :
  forall env request,
    (sameOrigin env request ->
     hasCachedExtension (pathname (url request)) ->
     getCacheStrategy env request = CacheFirst) /\
    (sameOrigin env request ->
     namesIcon (pathname (url request)) ->
     getCacheStrategy env request = CacheFirst) /\
    (startsWith (pathname (url request)) "/" = true ->
     ~ (sameOrigin env request /\
        (hasCachedExtension (pathname (url request)) \/
         namesIcon (pathname (url request)))) ->
     getCacheStrategy env request = NetworkFirst).
Proof.
  intros env request. repeat split.
  - intros Ho He. apply getCacheStrategy_CacheFirst. tauto.
  - intros Ho Hi. apply getCacheStrategy_CacheFirst. tauto.
  - intros Hslash Hnot.
    destruct (getCacheStrategy env request) eqn:E; [|reflexivity].
    apply getCacheStrategy_CacheFirst in E.
    destruct E as [Ho [Hseed | [Hi | He]]]; try tauto.
    exfalso. unfold isSeedPath in Hseed.
    destruct Hseed as [Hp | [Hp | Hp]];
      eapply startsWith_slash_not_dot; eauto.
Qed.

Lemma getCacheStrategy_extension_or_icon_witness :
  getCacheStrategy (sampleEnv offline) (appRequest "/app.js" "no-cors")
  = CacheFirst /\
  getCacheStrategy (sampleEnv offline) iconRequest = CacheFirst /\
  getCacheStrategy (sampleEnv offline) (appRequest "/api/oracle" "cors")
  = NetworkFirst.
Proof.
  split; [|split].
  - apply (proj1 (getCacheStrategy_extension_or_icon (sampleEnv offline)
                    (appRequest "/app.js" "no-cors"))).
    + reflexivity.
    + exists "/app", "js". split; [simpl; auto | reflexivity].
  - apply (proj1 (proj2 (getCacheStrategy_extension_or_icon
                           (sampleEnv offline) iconRequest))).
    + reflexivity.
    + exists "/", "sprite.webp". reflexivity.
  - apply (proj2 (proj2 (getCacheStrategy_extension_or_icon (sampleEnv offline)
                           (appRequest "/api/oracle" "cors")))).
    + reflexivity.
    + intros [_ [H | H]].
      * apply hasCachedExtensionb_spec in H. discriminate H.
      * apply includes_spec in H. discriminate H.
Defined.

(** ** Running computations *)

Ltac js_unfold :=
  unfold caches_match, caches_open, caches_keys, caches_delete, cache_keys,
    store_entry, cache_delete, fetch, skipWaiting, clients_claim,
    get_caches, set_caches, emit, try_catch, bind, ret, throw in *.

Lemma newEvents_app w cs es :
  newEvents w (mkWorld cs (trace w ++ es)) = es.
Proof.
  unfold newEvents. simpl.
  rewrite skipn_app, skipn_all, Nat.sub_diag. reflexivity.
Qed.

Lemma app_cons_assoc {A} (l : list A) (a : A) (l' : list A) :
  ((l ++ [a]) ++ l' = l ++ a :: l')%list.
Proof. now rewrite <- app_assoc. Qed.

Lemma distinct_NoDup l : distinct l = true -> NoDup l.
Proof.
  induction l as [|x l IH]; simpl; [constructor|].
  rewrite andb_true_iff, negb_true_iff. intros [Hx Hl].
  constructor; [|auto].
  intros Hin.
  assert (existsb (String.eqb x) l = true); [|congruence].
  apply existsb_exists. exists x. split; [assumption | apply String.eqb_refl].
Qed.

(** ** Platform calls, one step each *)

Lemma caches_open_run name w :
  caches_open name w =
  (Return tt, mkWorld (opened name (caches w)) (trace w ++ [EvCachesOpen name])).
Proof.
  unfold caches_open, opened. js_unfold. cbn [caches trace].
  destruct (alist_get name (caches w)); reflexivity.
Qed.

Lemma caches_match_run request w :
  caches_match request w =
  (Return (matchRequest request (caches w)),
   mkWorld (caches w) (trace w ++ [EvCachesMatch (href (url request))])).
Proof. reflexivity. Qed.

Lemma fetch_run env request w :
  fetch env request w =
  (match network env request with
   | Some r => Return r
   | None => Throw (NetworkError (href (url request)))
   end,
   mkWorld (caches w) (trace w ++ [EvFetch (href (url request))])).
Proof.
  unfold fetch, bind, emit, ret, throw. cbn beta iota.
  now destruct (network env request).
Qed.

Lemma store_entry_run name u r w :
  store_entry name u r w =
  (Return tt,
   mkWorld (alist_update name (fun c => alist_remove u c ++ [(u, r)])%list
              (caches w))
           (trace w ++ [EvCachePut name u])).
Proof. reflexivity. Qed.

Lemma unawaited_put_run request r w :
  unawaited (cache_put DYNAMIC_CACHE request r) w
  = (Return tt, afterPut request r w).
Proof.
  unfold unawaited, cache_put, afterPut.
  now destruct (cacheable request r).
Qed.

Lemma matchRequest_Some request cs r :
  matchRequest request cs = Some r <->
  method request = "GET" /\ storage_match (requestKey request) cs = Some r.
Proof.
  unfold matchRequest. destruct (String.eqb (method request) "GET") eqn:E.
  - apply String.eqb_eq in E. tauto.
  - apply String.eqb_neq in E. split; [discriminate | tauto].
Qed.

(** A response found by the lookup is an entry of some generation. *)
Lemma storage_match_Some_in u (cs : CacheStorage) r :
  storage_match u cs = Some r ->
  exists name c, In (name, c) cs /\ alist_get u c = Some r.
Proof.
  induction cs as [|[n c] cs IH]; simpl; [discriminate|].
  destruct (alist_get u c) as [r'|] eqn:E.
  - intros H. injection H as <-. exists n, c. auto.
  - intros H. destruct (IH H) as (n' & c' & Hin & Hget).
    exists n', c'. auto.
Qed.

(** ** The executors, path by path *)

Lemma cacheFirst_hit_run env request w cached :
  matchRequest request (caches w) = Some cached ->
  cacheFirst env request w =
  (Return cached,
   mkWorld (caches w) (trace w ++ [EvCachesMatch (href (url request))])).
Proof.
  intros Hhit. unfold cacheFirst, try_catch, bind.
  rewrite caches_match_run, Hhit. reflexivity.
Qed.

Lemma cacheFirst_miss_not_ok_run env request w r :
  matchRequest request (caches w) = None ->
  network env request = Some r ->
  ok r = false ->
  cacheFirst env request w =
  (Return r,
   mkWorld (caches w)
     (trace w ++ [EvCachesMatch (href (url request));
                  EvFetch (href (url request))])).
Proof.
  intros Hmiss Hnet Hko. unfold cacheFirst, try_catch, bind.
  rewrite caches_match_run, Hmiss, fetch_run, Hnet, Hko.
  cbn [caches trace ret]. now rewrite <- app_assoc.
Qed.

Lemma cacheFirst_miss_ok_run env request w r :
  matchRequest request (caches w) = None ->
  network env request = Some r ->
  ok r = true ->
  cacheFirst env request w =
  (Return r,
   afterPut request r
     (mkWorld (opened DYNAMIC_CACHE (caches w))
        (trace w ++ [EvCachesMatch (href (url request));
                     EvFetch (href (url request));
                     EvCachesOpen DYNAMIC_CACHE]))).
Proof.
  intros Hmiss Hnet Hok. unfold cacheFirst, try_catch, bind.
  rewrite caches_match_run, Hmiss, fetch_run, Hnet, Hok.
  rewrite caches_open_run, unawaited_put_run.
  cbn [caches trace ret]. now rewrite <- !app_assoc.
Qed.

Lemma cacheFirst_down_run env request w :
  matchRequest request (caches w) = None ->
  network env request = None ->
  cacheFirst env request w =
  if String.eqb (mode request) "navigate" then
    (Return (match matchRequest (requestOf env "./index.html") (caches w) with
             | Some main => main
             | None => offlineResponse
             end),
     mkWorld (caches w)
       (trace w ++ [EvCachesMatch (href (url request));
                    EvFetch (href (url request));
                    EvCachesMatch (href (resolve env "./index.html"))]))
  else
    (Throw (NetworkError (href (url request))),
     mkWorld (caches w)
       (trace w ++ [EvCachesMatch (href (url request));
                    EvFetch (href (url request))])).
Proof.
  intros Hmiss Hdown. unfold cacheFirst, try_catch, bind.
  rewrite caches_match_run, Hmiss, fetch_run, Hdown.
  destruct (String.eqb (mode request) "navigate").
  - rewrite caches_match_run. cbn [caches trace].
    rewrite <- !app_assoc.
    now destruct (matchRequest (requestOf env "./index.html") (caches w)).
  - unfold throw. cbn [caches trace]. now rewrite <- app_assoc.
Qed.

Lemma networkFirst_down_run env request w :
  network env request = None ->
  networkFirst env request w =
  (match matchRequest request (caches w) with
   | Some cached => Return cached
   | None => Throw (NetworkError (href (url request)))
   end,
   mkWorld (caches w)
     (trace w ++ [EvFetch (href (url request));
                  EvCachesMatch (href (url request))])).
Proof.
  intros Hdown. unfold networkFirst, try_catch, bind.
  rewrite fetch_run, Hdown, caches_match_run. cbn [caches trace].
  rewrite <- app_assoc.
  now destruct (matchRequest request (caches w)).
Qed.

Lemma networkFirst_not_stored_run env request w r :
  network env request = Some r ->
  ok r && String.eqb (method request) "GET" = false ->
  networkFirst env request w =
  (Return r, mkWorld (caches w) (trace w ++ [EvFetch (href (url request))])).
Proof.
  intros Hnet Hno. unfold networkFirst, try_catch, bind.
  rewrite fetch_run, Hnet, Hno. reflexivity.
Qed.

Lemma networkFirst_ok_run env request w r :
  network env request = Some r ->
  ok r = true ->
  method request = "GET" ->
  networkFirst env request w =
  (Return r,
   afterPut request r
     (mkWorld (opened DYNAMIC_CACHE (caches w))
        (trace w ++ [EvFetch (href (url request));
                     EvCachesOpen DYNAMIC_CACHE]))).
Proof.
  intros Hnet Hok Hget. unfold networkFirst, try_catch, bind.
  rewrite fetch_run, Hnet, Hok, Hget.
  cbn [andb String.eqb Ascii.eqb Bool.eqb].
  rewrite caches_open_run, unawaited_put_run.
  cbn [caches trace ret]. now rewrite <- !app_assoc.
Qed.

(** ** The executors *)

(** C8: on a cache hit, that is when [caches.match(request)] has an answer
    (the request is a GET and some generation holds an entry for its URL,
    fragment apart), [cacheFirst] returns the cached entry; the only
    platform call it makes is the lookup itself, so the network is not
    contacted, nothing is checked for freshness and no cache is written. *)
Theorem cacheFirst_hit :
  forall env request w cached,
    matchRequest request (caches w) = Some cached ->
    let w' := snd (cacheFirst env request w) in
    fst (cacheFirst env request w) = Return cached /\
    caches w' = caches w /\
    newEvents w w' = [EvCachesMatch (href (url request))] /\
    existsb isFetch (newEvents w w') = false /\
    existsb isWrite (newEvents w w') = false /\
    method request = "GET" /\
    (exists name c,
       In (name, c) (caches w) /\
       alist_get (requestKey request) c = Some cached).
Proof.
  intros env request w cached Hhit.
  rewrite (cacheFirst_hit_run env request w cached Hhit).
  cbn [fst snd]. rewrite newEvents_app.
  apply matchRequest_Some in Hhit. destruct Hhit as [Hget Hfound].
  repeat split; auto. now apply storage_match_Some_in.
Qed.

Lemma cacheFirst_hit_witness :
  fst (cacheFirst (sampleEnv offline)
         (fragmentRequest "/index.html" "top" "navigate") shellWorld)
  = Return page.
Proof.
  apply (cacheFirst_hit (sampleEnv offline)
           (fragmentRequest "/index.html" "top" "navigate") shellWorld
           page eq_refl).
Defined.

(** C6: a navigation for which [caches.match] has no answer while the
    network is down is answered by [cacheFirst] with the cached main
    document when there is one, an entry some generation holds for
    [./index.html], and else with the 503 HTML placeholder; whatever the
    world, a navigation never makes [cacheFirst] throw. *)
Theorem cacheFirst_offline_navigation :
  forall env request w,
    mode request = "navigate" ->
    (matchRequest request (caches w) = None ->
     network env request = None ->
     match matchRequest (requestOf env "./index.html") (caches w) with
     | Some main =>
         fst (cacheFirst env request w) = Return main /\
         (exists name c,
            In (name, c) (caches w) /\
            alist_get (requestKey (requestOf env "./index.html")) c = Some main)
     | None =>
         fst (cacheFirst env request w) = Return offlineResponse /\
         status offlineResponse = 503%Z /\
         startsWith (contentType offlineResponse) "text/html" = true
     end) /\
    (exists r, fst (cacheFirst env request w) = Return r).
Proof.
  intros env request w Hnav. split.
  - intros Hmiss Hdown.
    rewrite (cacheFirst_down_run env request w Hmiss Hdown), Hnav.
    cbn [String.eqb Ascii.eqb Bool.eqb fst].
    destruct (matchRequest (requestOf env "./index.html") (caches w))
      as [main|] eqn:E; [|auto].
    split; [reflexivity|].
    apply matchRequest_Some in E. now apply storage_match_Some_in.
  - destruct (matchRequest request (caches w)) as [cached|] eqn:Hm.
    + rewrite (cacheFirst_hit_run env request w cached Hm).
      eexists; reflexivity.
    + destruct (network env request) as [r|] eqn:Hnet.
      * destruct (ok r) eqn:Hok.
        { rewrite (cacheFirst_miss_ok_run env request w r Hm Hnet Hok).
          eexists; reflexivity. }
        { rewrite (cacheFirst_miss_not_ok_run env request w r Hm Hnet Hok).
          eexists; reflexivity. }
      * rewrite (cacheFirst_down_run env request w Hm Hnet), Hnav.
        cbn [String.eqb Ascii.eqb Bool.eqb fst]. eexists; reflexivity.
Qed.

Lemma cacheFirst_offline_navigation_witness :
  fst (cacheFirst (sampleEnv offline) (appRequest "/oracle" "navigate")
         shellWorld)
  = Return page /\
  fst (cacheFirst (sampleEnv offline) (appRequest "/oracle" "navigate")
         legacyWorld)
  = Return offlineResponse.
Proof.
  split.
  - apply (proj1 (cacheFirst_offline_navigation (sampleEnv offline)
                    (appRequest "/oracle" "navigate") shellWorld eq_refl)
             eq_refl eq_refl).
  - apply (proj1 (cacheFirst_offline_navigation (sampleEnv offline)
                    (appRequest "/oracle" "navigate") legacyWorld eq_refl)
             eq_refl eq_refl).
Defined.

(** C7: when the network is down, [networkFirst] returns what
    [caches.match(request)] answers, an entry some generation holds for the
    URL of a GET request (fragment apart), when there is one, and throws
    the fetch's error when there is none, as for every request that is not
    a GET; it looks up nothing but the request itself, whatever the
    request's mode, so a navigation gets no fallback of its own here. *)
Theorem networkFirst_offline :
  forall env request w,
    network env request = None ->
    let w' := snd (networkFirst env request w) in
    fst (networkFirst env request w) =
    match matchRequest request (caches w) with
    | Some cached => Return cached
    | None => Throw (NetworkError (href (url request)))
    end /\
    caches w' = caches w /\
    newEvents w w' =
    [EvFetch (href (url request)); EvCachesMatch (href (url request))] /\
    (forall cached,
       fst (networkFirst env request w) = Return cached ->
       method request = "GET" /\
       exists name c,
         In (name, c) (caches w) /\
         alist_get (requestKey request) c = Some cached) /\
    (method request <> "GET" ->
     fst (networkFirst env request w)
     = Throw (NetworkError (href (url request)))).
Proof.
  intros env request w Hdown.
  rewrite (networkFirst_down_run env request w Hdown).
  cbn [fst snd]. rewrite newEvents_app.
  split; [reflexivity|]. split; [reflexivity|]. split; [reflexivity|]. split.
  - intros cached.
    destruct (matchRequest request (caches w)) as [r|] eqn:E; [|discriminate].
    intros H. injection H as ->.
    apply matchRequest_Some in E. destruct E as [Hget Hfound].
    split; [exact Hget | now apply storage_match_Some_in].
  - intros Hm. unfold matchRequest.
    apply String.eqb_neq in Hm. now rewrite Hm.
Qed.

Lemma networkFirst_offline_witness :
  fst (networkFirst (sampleEnv offline)
         (fragmentRequest "/api/oracle" "today" "cors") shellWorld)
  = Return oracleAnswer /\
  fst (networkFirst (sampleEnv offline) (postRequest "/api/oracle") shellWorld)
  = Throw (NetworkError (appOrigin ++ "/api/oracle")) /\
  fst (networkFirst (sampleEnv offline) (appRequest "/about" "navigate")
         shellWorld)
  = Throw (NetworkError (appOrigin ++ "/about")).
Proof.
  split; [|split].
  - apply (proj1 (networkFirst_offline (sampleEnv offline)
                    (fragmentRequest "/api/oracle" "today" "cors") shellWorld
                    eq_refl)).
  - apply (proj1 (networkFirst_offline (sampleEnv offline)
                    (postRequest "/api/oracle") shellWorld eq_refl)).
  - apply (proj1 (networkFirst_offline (sampleEnv offline)
                    (appRequest "/about" "navigate") shellWorld eq_refl)).
Defined.

(** C10: a fetch that completes with a response that is not [ok] is not a
    failure: both executors return that very response, leave every cache as
    it was and ask for no fallback; [cacheFirst] does so after
    [caches.match] had no answer for the request, [networkFirst] at once. *)
Theorem executors_return_non_ok_response :
  forall env request w r,
    network env request = Some r ->
    ok r = false ->
    (matchRequest request (caches w) = None ->
     cacheFirst env request w =
     (Return r,
      mkWorld (caches w)
        (trace w ++ [EvCachesMatch (href (url request));
                     EvFetch (href (url request))]))) /\
    networkFirst env request w =
    (Return r, mkWorld (caches w) (trace w ++ [EvFetch (href (url request))])).
Proof.
  intros env request w r Hnet Hko. split.
  - intros Hmiss. now apply cacheFirst_miss_not_ok_run.
  - apply networkFirst_not_stored_run; [exact Hnet | now rewrite Hko].
Qed.

Lemma executors_return_non_ok_response_witness :
  fst (cacheFirst (sampleEnv (fun _ => Some notFound))
         (fragmentRequest "/missing.js" "v2" "no-cors") shellWorld)
  = Return notFound /\
  fst (networkFirst (sampleEnv (fun _ => Some notFound))
         (appRequest "/missing.js" "no-cors") shellWorld)
  = Return notFound.
Proof.
  pose proof (executors_return_non_ok_response
                (sampleEnv (fun _ => Some notFound))
                (fragmentRequest "/missing.js" "v2" "no-cors") shellWorld
                notFound eq_refl eq_refl) as [Hcf _].
  pose proof (executors_return_non_ok_response
                (sampleEnv (fun _ => Some notFound))
                (appRequest "/missing.js" "no-cors") shellWorld
                notFound eq_refl eq_refl) as [_ Hnf].
  split.
  - rewrite (Hcf eq_refl). reflexivity.
  - rewrite Hnf. reflexivity.
Defined.

(** ** The fetch listener *)

(** C9, the claim as stated fails: a GET whose URL has the scheme of a
    Safari extension is intercepted like any other request: the listener
    goes to the network for it and hands a response to [respondWith]. *)
Lemma safari_extension_request_is_intercepted :
  fst (onFetch (sampleEnv offline) safariRequest legacyWorld)
  = Return (RespondWith unavailableResponse) /\
  fst (onFetch (sampleEnv offline) safariRequest legacyWorld)
  <> Return PassThrough /\
  fetchCount (newEvents legacyWorld
                (snd (onFetch (sampleEnv offline) safariRequest legacyWorld)))
  = 1.
Proof.
  split; [reflexivity|]. split; [discriminate | reflexivity].
Qed.

(** C9, amended: for a request that is not a GET, or whose URL starts with
    [chrome-extension://] or [moz-extension://], the listener returns
    without calling [respondWith]: the event passes through and the world
    (caches and platform calls) is untouched. *)
Theorem onFetch_passthrough :
  forall env request w,
    method request <> "GET" \/
    startsWith (href (url request)) "chrome-extension://" = true \/
    startsWith (href (url request)) "moz-extension://" = true ->
    onFetch env request w = (Return PassThrough, w).
Proof.
  intros env request w H. unfold onFetch.
  replace (negb (String.eqb (method request) "GET") ||
           startsWith (href (url request)) "chrome-extension://" ||
           startsWith (href (url request)) "moz-extension://") with true;
    [reflexivity|].
  symmetry. rewrite !orb_true_iff, negb_true_iff.
  destruct H as [H | [H | H]]; auto.
  left; left. now apply String.eqb_neq.
Qed.

Lemma onFetch_passthrough_witness :
  onFetch (sampleEnv offline)
    (mkRequest (mkURL (appOrigin ++ "/api/oracle") appOrigin "/api/oracle")
       "POST" "cors")
    (mkWorld [] [])
  = (Return PassThrough, mkWorld [] []) /\
  onFetch (sampleEnv offline)
    (mkRequest (mkURL "chrome-extension://abcdef/popup.js"
                  "chrome-extension://abcdef" "/popup.js") "GET" "no-cors")
    (mkWorld [] [])
  = (Return PassThrough, mkWorld [] []).
Proof.
  split.
  - apply (onFetch_passthrough (sampleEnv offline)). left. discriminate.
  - apply (onFetch_passthrough (sampleEnv offline)). right; left. reflexivity.
Defined.

(** Every other request is answered: the listener always hands a response
    to [respondWith], the executors' failures being caught. *)
Lemma onFetch_responds env request w :
  method request = "GET" ->
  startsWith (href (url request)) "chrome-extension://" = false ->
  startsWith (href (url request)) "moz-extension://" = false ->
  exists r, fst (onFetch env request w) = Return (RespondWith r).
Proof.
  intros Hget Hc Hm. unfold onFetch. rewrite Hget, Hc, Hm. simpl.
  unfold try_catch, bind.
  destruct (match getCacheStrategy env request with
            | CacheFirst => cacheFirst env request
            | NetworkFirst => networkFirst env request
            end w) as [[r | e] w1]; simpl; [eauto|].
  destruct (String.eqb (mode request) "navigate").
  - rewrite caches_match_run.
    destruct (matchRequest _ (caches w1)); simpl; eauto.
  - simpl. eauto.
Qed.

(** ** Association lists *)

Section AListFacts.
Context {V : Type}.
Implicit Types (l : list (string * V)) (k : string).

Lemma keys_alist_remove k l :
  keys (alist_remove k l) = filter (fun k' => negb (String.eqb k' k)) (keys l).
Proof.
  unfold keys, alist_remove.
  induction l as [|[k' v] l IH]; simpl; [reflexivity|].
  destruct (String.eqb k' k); simpl; now rewrite IH.
Qed.

Lemma in_keys_alist_remove k k' l :
  In k' (keys (alist_remove k l)) <-> In k' (keys l) /\ k' <> k.
Proof.
  rewrite keys_alist_remove, filter_In, negb_true_iff, String.eqb_neq.
  tauto.
Qed.

Lemma alist_get_in_keys k l :
  alist_get k l <> None <-> In k (keys l).
Proof.
  induction l as [|[k' v] l IH]; simpl; [tauto|].
  destruct (String.eqb k' k) eqn:E.
  - apply String.eqb_eq in E. split; [auto | discriminate].
  - apply String.eqb_neq in E. rewrite IH. split; [auto | tauto].
Qed.

Lemma alist_get_update k (f : V -> V) l :
  alist_get k (alist_update k f l) = option_map f (alist_get k l).
Proof.
  unfold alist_update.
  induction l as [|[k' v] l IH]; simpl; [reflexivity|].
  destruct (String.eqb k' k) eqn:E; simpl; rewrite E; [reflexivity|exact IH].
Qed.

Lemma alist_get_app_absent k l v :
  alist_get k l = None -> alist_get k (l ++ [(k, v)]) = Some v.
Proof.
  induction l as [|[k' v'] l IH]; simpl.
  - now rewrite String.eqb_refl.
  - destruct (String.eqb k' k); [discriminate | exact IH].
Qed.

(** Removing a key that the list does not hold changes nothing. *)
Lemma alist_remove_absent k l :
  ~ In k (keys l) -> alist_remove k l = l.
Proof.
  unfold alist_remove, keys.
  induction l as [|[k' v] l IH]; simpl; [reflexivity|].
  intros Hnot. destruct (String.eqb k' k) eqn:E.
  - apply String.eqb_eq in E. tauto.
  - simpl. rewrite IH; tauto.
Qed.

(** With distinct keys, removing the keys of the first [n] entries one
    after the other leaves the entries from the [n]-th on. *)
Lemma remove_firstn_keys n l :
  NoDup (keys l) ->
  fold_left (fun acc k => alist_remove k acc) (firstn n (keys l)) l
  = skipn n l.
Proof.
  revert l. induction n as [|n IH]; intros l Hnd; [reflexivity|].
  destruct l as [|[k v] l]; [reflexivity|].
  simpl in Hnd. inversion Hnd as [|? ? Hnotin Hnd']; subst.
  simpl. rewrite String.eqb_refl. simpl.
  fold (alist_remove k l). rewrite alist_remove_absent by assumption.
  now apply IH.
Qed.
End AListFacts.

(** ** Promise combinators over the storage *)

Lemma promise_all_caches_delete names w :
  promise_all (map caches_delete names) w =
  (Return (map (fun _ => tt) names),
   mkWorld (fold_left (fun cs n => alist_remove n cs) names (caches w))
           (trace w ++ map EvCachesDelete names)).
Proof.
  revert w. induction names as [|n names IH]; intros w.
  - simpl. unfold ret. rewrite app_nil_r. now destruct w.
  - cbn [map promise_all].
    unfold caches_delete at 1. js_unfold. cbn [caches trace fst snd].
    rewrite IH. cbn [caches trace fold_left]. rewrite app_cons_assoc.
    reflexivity.
Qed.

Lemma promise_all_cache_delete name us w :
  promise_all (map (cache_delete name) us) w =
  (Return (map (fun _ => tt) us),
   mkWorld (fold_left (fun cs u => alist_update name (alist_remove u) cs)
              us (caches w))
           (trace w ++ map (EvCacheDelete name) us)).
Proof.
  revert w. induction us as [|u us IH]; intros w.
  - simpl. unfold ret. rewrite app_nil_r. now destruct w.
  - cbn [map promise_all].
    unfold cache_delete at 1. js_unfold. cbn [caches trace fst snd].
    rewrite IH. cbn [caches trace fold_left]. rewrite app_cons_assoc.
    reflexivity.
Qed.

Lemma in_keys_remove_all names (cs : CacheStorage) n :
  In n (keys (fold_left (fun cs n => alist_remove n cs) names cs)) <->
  In n (keys cs) /\ ~ In n names.
Proof.
  revert cs. induction names as [|m names IH]; intros cs; simpl.
  - tauto.
  - rewrite IH, in_keys_alist_remove. intuition congruence.
Qed.

Lemma alist_get_opened name cs :
  alist_get name (opened name cs) =
  Some (match alist_get name cs with Some c => c | None => [] end).
Proof.
  unfold opened. destruct (alist_get name cs) as [c|] eqn:E.
  - exact E.
  - now apply alist_get_app_absent.
Qed.

(** ** Installation: seeding *)

(** The install listener ends its promise chain with a [catch] that only
    logs: the promise given to [waitUntil] fulfils in every world. *)
Lemma onInstall_never_rejects env w :
  fst (onInstall env w) = Return tt.
Proof.
  unfold onInstall, try_catch.
  match goal with |- context [let (_, _) := ?c in _] => destruct c as [[[]|e] w'] end;
    reflexivity.
Qed.

(** C1: on a network where the main document, a required seed asset,
    cannot be fetched, the promise the install listener gives to
    [waitUntil] fulfils all the same: nothing was stored in the static
    generation and [skipWaiting] was not called, but the failure is not
    propagated and the installation completes. *)
Theorem onInstall_fulfils_when_required_asset_fails :
  let env := sampleEnv mainDocumentDown in
  let w' := snd (onInstall env legacyWorld) in
  In "./index.html" STATIC_ASSETS /\
  network env (requestOf env "./index.html") = None /\
  fst (onInstall env legacyWorld) = Return tt /\
  entriesOf STATIC_CACHE w' = [] /\
  skippedWaiting (newEvents legacyWorld w') = false.
Proof.
  cbv zeta. split; [simpl; auto|].
  split; [reflexivity|]. split; [apply onInstall_never_rejects|].
  split; vm_compute; reflexivity.
Qed.

(** Missing optional assets do not abort the installation: with the icons
    answering 404, the required assets are stored and [skipWaiting] is
    called. *)
Example onInstall_with_icons_missing :
  let env := sampleEnv iconsMissing in
  let w' := snd (onInstall env legacyWorld) in
  fst (onInstall env legacyWorld) = Return tt /\
  List.length (entriesOf STATIC_CACHE w') = 3 /\
  entriesOf DYNAMIC_CACHE w' = [] /\
  skippedWaiting (newEvents legacyWorld w') = true.
Proof. vm_compute. auto. Qed.

(** ** Generations across the seed *)

Create HintDb generations.

Lemma keeps_ret {A} (a : A) : keepsGenerations (ret a).
Proof. intros w n H. exact H. Qed.

Lemma keeps_throw {A} e : keepsGenerations (@throw A e).
Proof. intros w n H. exact H. Qed.

Lemma keeps_emit e : keepsGenerations (emit e).
Proof. intros w n H. exact H. Qed.

Lemma keeps_bind {A B} (c : Js A) (k : A -> Js B) :
  keepsGenerations c -> (forall a, keepsGenerations (k a)) ->
  keepsGenerations (bind c k).
Proof.
  intros Hc Hk w n H. unfold bind. specialize (Hc w n H).
  destruct (c w) as [[a|e] w1]; simpl in *; [now apply Hk | assumption].
Qed.

Lemma keeps_try_catch {A} (c : Js A) h :
  keepsGenerations c -> (forall e, keepsGenerations (h e)) ->
  keepsGenerations (try_catch c h).
Proof.
  intros Hc Hh w n H. unfold try_catch. specialize (Hc w n H).
  destruct (c w) as [[a|e] w1]; simpl in *; [assumption | now apply Hh].
Qed.

Lemma keeps_promise_all {A} (ps : list (Js A)) :
  Forall keepsGenerations ps -> keepsGenerations (promise_all ps).
Proof.
  induction 1 as [|p ps Hp Hps IH]; intros w n H; [exact H|].
  cbn [promise_all]. specialize (Hp w n H).
  destruct (p w) as [o w1]. specialize (IH w1 n Hp).
  destruct (promise_all ps w1) as [os w2]. exact IH.
Qed.

Lemma keeps_promise_allSettled {A} (ps : list (Js A)) :
  Forall keepsGenerations ps -> keepsGenerations (promise_allSettled ps).
Proof.
  induction 1 as [|p ps Hp Hps IH]; intros w n H; [exact H|].
  cbn [promise_allSettled]. specialize (Hp w n H).
  destruct (p w) as [o w1]. specialize (IH w1 n Hp).
  destruct (promise_allSettled ps w1) as [[l|e] w2]; exact IH.
Qed.

Lemma keys_alist_update {V} k (f : V -> V) l :
  keys (alist_update k f l) = keys l.
Proof.
  unfold keys, alist_update. rewrite map_map. apply map_ext.
  intros [k' v]. simpl. now destruct (String.eqb k' k).
Qed.

Lemma keeps_fetch env request : keepsGenerations (fetch env request).
Proof.
  intros w n H. unfold fetch, bind, emit. cbn beta iota.
  destruct (network env request); exact H.
Qed.

Lemma keeps_caches_open name : keepsGenerations (caches_open name).
Proof.
  intros w n H. rewrite caches_open_run. cbn [snd caches]. unfold opened.
  destruct (alist_get name (caches w)); [exact H|].
  unfold keys. rewrite map_app, in_app_iff. now left.
Qed.

Lemma keeps_cache_put name u r : keepsGenerations (store_entry name u r).
Proof.
  intros w n H. unfold store_entry. js_unfold. cbn [snd caches].
  now rewrite keys_alist_update.
Qed.

#[local] Hint Resolve keeps_ret keeps_throw keeps_emit keeps_bind
  keeps_try_catch keeps_promise_all keeps_promise_allSettled keeps_fetch
  keeps_caches_open keeps_cache_put : generations.

Lemma keeps_put_all name l : keepsGenerations (put_all name l).
Proof.
  induction l as [|[u r] l IH]; cbn [put_all]; auto with generations.
Qed.

Lemma keeps_fetch_ok env rel : keepsGenerations (fetch_ok env rel).
Proof.
  unfold fetch_ok. cbv zeta.
  destruct (isHttp (href (url (requestOf env rel)))); [|auto with generations].
  apply keeps_bind; [auto with generations|].
  intros r. destruct (ok r && negb (Z.eqb (status r) 206));
    auto with generations.
Qed.

Lemma keeps_cache_addAll env name rels :
  keepsGenerations (cache_addAll env name rels).
Proof.
  unfold cache_addAll. apply keeps_bind.
  - apply keeps_promise_all, Forall_map, Forall_forall.
    intros rel _. apply keeps_fetch_ok.
  - intros l. apply keeps_put_all.
Qed.

Lemma opens_caches_open name : opensGeneration name (caches_open name).
Proof.
  intros w. rewrite caches_open_run. cbn [snd caches].
  apply alist_get_in_keys. rewrite alist_get_opened. discriminate.
Qed.

Lemma opens_bind {A B} name (c : Js A) (k : A -> Js B) :
  opensGeneration name c -> (forall a, keepsGenerations (k a)) ->
  opensGeneration name (bind c k).
Proof.
  intros Hc Hk w. unfold bind. specialize (Hc w).
  destruct (c w) as [[a|e] w1]; simpl in *; [now apply Hk | assumption].
Qed.

Lemma opens_try_catch {A} name (c : Js A) h :
  opensGeneration name c -> (forall e, keepsGenerations (h e)) ->
  opensGeneration name (try_catch c h).
Proof.
  intros Hc Hh w. unfold try_catch. specialize (Hc w).
  destruct (c w) as [[a|e] w1]; simpl in *; [assumption | now apply Hh].
Qed.

Lemma opens_promise_all_head {A} name (p : Js A) ps :
  opensGeneration name p -> Forall keepsGenerations ps ->
  opensGeneration name (promise_all (p :: ps)).
Proof.
  intros Hp Hps w. cbn [promise_all]. specialize (Hp w).
  destruct (p w) as [o w1]. simpl in Hp.
  pose proof (keeps_promise_all ps Hps w1 name Hp) as H.
  destruct (promise_all ps w1) as [os w2]. exact H.
Qed.

Lemma opens_promise_all_tail {A} name (p : Js A) ps :
  opensGeneration name (promise_all ps) ->
  opensGeneration name (promise_all (p :: ps)).
Proof.
  intros Hps w. cbn [promise_all].
  destruct (p w) as [o w1]. specialize (Hps w1).
  destruct (promise_all ps w1) as [os w2]. exact Hps.
Qed.

(** The seed opens both live generations, whatever the network does: the
    precondition of the prune holds after every installation. *)
Lemma onInstall_opens_generations env w :
  In STATIC_CACHE (keys (caches (snd (onInstall env w)))) /\
  In DYNAMIC_CACHE (keys (caches (snd (onInstall env w)))).
Proof.
  assert (Hoptional :
            keepsGenerations
              (promise_allSettled
                 (map (fun asset =>
                         try_catch (cache_add env DYNAMIC_CACHE asset)
                                   (fun _ => ret tt))
                      OPTIONAL_ASSETS))).
  { apply keeps_promise_allSettled, Forall_map, Forall_forall.
    intros asset _. apply keeps_try_catch; [|auto with generations].
    apply keeps_cache_addAll. }
  split; apply opens_try_catch; try (intros; apply keeps_ret);
    apply opens_bind; try (intros; apply keeps_emit).
  - apply opens_promise_all_head.
    + apply opens_bind; [apply opens_caches_open|].
      intros _. apply keeps_cache_addAll.
    + repeat constructor. apply keeps_bind; [apply keeps_caches_open|].
      intros _. apply keeps_bind; [exact Hoptional | auto with generations].
  - apply opens_promise_all_tail, opens_promise_all_head; [|constructor].
    apply opens_bind; [apply opens_caches_open|].
    intros _. apply keeps_bind; [exact Hoptional | auto with generations].
Qed.

(** ** Activation: pruning *)

Lemma onActivate_run w :
  onActivate w =
  (Return tt,
   mkWorld
     (fold_left (fun cs n => alist_remove n cs) (staleGenerations w) (caches w))
     (trace w ++ EvCachesKeys :: map EvCachesDelete (staleGenerations w)
              ++ [EvClientsClaim])).
Proof.
  unfold onActivate, try_catch. unfold bind. cbn [promise_all].
  unfold caches_keys, clients_claim, emit, get_caches, ret, bind.
  cbn beta iota. cbn [caches trace].
  rewrite promise_all_caches_delete. cbn [caches trace].
  unfold staleGenerations.
  rewrite <- !app_assoc. reflexivity.
Qed.

Lemma isStale_false_iff n :
  startsWith n "matteo-declic-" = true ->
  (isStale n = false <-> n = STATIC_CACHE \/ n = DYNAMIC_CACHE).
Proof.
  intros Hp. unfold isStale. rewrite Hp. simpl.
  rewrite negb_false_iff, orb_false_r, orb_true_iff, !String.eqb_eq.
  tauto.
Qed.

Lemma NoDup_keys_remove_all names (cs : CacheStorage) :
  NoDup (keys cs) ->
  NoDup (keys (fold_left (fun cs n => alist_remove n cs) names cs)).
Proof.
  revert cs. induction names as [|m names IH]; intros cs Hnd; simpl; auto.
  apply IH. rewrite keys_alist_remove. now apply NoDup_filter.
Qed.

(** The generations left by activation: those that were there and are not
    stale. *)
Lemma onActivate_generations w n :
  In n (keys (caches (snd (onActivate w)))) <->
  In n (keys (caches w)) /\ isStale n = false.
Proof.
  rewrite onActivate_run. cbn [snd caches].
  rewrite in_keys_remove_all. unfold staleGenerations.
  rewrite filter_In. destruct (isStale n); intuition congruence.
Qed.

(** C4: after the prune, the application's generations are the live ones
    among those that existed; every other generation of the application
    that existed before is gone, whatever its version tag. Both live
    generations exist at activation, since the seed opened them: the
    application's generations are then exactly the static and the dynamic
    generation of the current version, and with distinct names the
    enumeration has just these two. This holds in particular after any
    installation, from any storage and on any network. *)
Theorem onActivate_prunes :
  forall w,
    let w' := snd (onActivate w) in
    fst (onActivate w) = Return tt /\
    (forall n, In n (appGenerations w') <->
               In n (keys (caches w)) /\
               (n = STATIC_CACHE \/ n = DYNAMIC_CACHE)) /\
    (forall n, In n (appGenerations w) ->
               n <> STATIC_CACHE -> n <> DYNAMIC_CACHE ->
               ~ In n (keys (caches w'))) /\
    (In STATIC_CACHE (keys (caches w)) ->
     In DYNAMIC_CACHE (keys (caches w)) ->
     (forall n, In n (appGenerations w') <->
                n = STATIC_CACHE \/ n = DYNAMIC_CACHE) /\
     (NoDup (keys (caches w)) ->
      Permutation (appGenerations w') [STATIC_CACHE; DYNAMIC_CACHE])) /\
    (forall env w0,
       w = snd (onInstall env w0) ->
       forall n, In n (appGenerations w') <->
                 n = STATIC_CACHE \/ n = DYNAMIC_CACHE).
Proof.
  intros w w'.
  assert (Hgen : forall n, In n (appGenerations w') <->
                           In n (keys (caches w)) /\
                           (n = STATIC_CACHE \/ n = DYNAMIC_CACHE)).
  { intros n. unfold appGenerations, w'.
    rewrite filter_In, onActivate_generations. split.
    - intros [[Hin Hlive] Hp]. split; [exact Hin|].
      now apply isStale_false_iff.
    - intros [Hin [-> | ->]];
        (split; [split; [assumption | reflexivity] | reflexivity]). }
  assert (Hlive : In STATIC_CACHE (keys (caches w)) ->
                  In DYNAMIC_CACHE (keys (caches w)) ->
                  forall n, In n (appGenerations w') <->
                            n = STATIC_CACHE \/ n = DYNAMIC_CACHE).
  { intros Hs Hd n. rewrite Hgen. intuition congruence. }
  split; [now rewrite onActivate_run|]. split; [exact Hgen|].
  split; [|split].
  - intros n Happ Hns Hnd Hin.
    assert (Hin' : In n (appGenerations w')).
    { unfold appGenerations in *. rewrite filter_In in *. tauto. }
    apply Hgen in Hin'. tauto.
  - intros Hs Hd. split; [now apply Hlive|].
    intros Hnodup. apply NoDup_Permutation.
    + unfold appGenerations, w'. apply NoDup_filter.
      rewrite onActivate_run. now apply NoDup_keys_remove_all.
    + repeat constructor; simpl; intuition discriminate.
    + intros n. rewrite (Hlive Hs Hd). simpl. intuition congruence.
  - intros env w0 Hw. subst w.
    destruct (onInstall_opens_generations env w0) as [Hs Hd].
    now apply Hlive.
Qed.

Lemma onActivate_prunes_witness :
  Permutation
    (appGenerations
       (snd (onActivate (snd (onInstall (sampleEnv online) legacyWorld)))))
    [STATIC_CACHE; DYNAMIC_CACHE].
Proof.
  assert (Hs : In STATIC_CACHE
                 (keys (caches (snd (onInstall (sampleEnv online) legacyWorld))))).
  { vm_compute. auto 10. }
  assert (Hd : In DYNAMIC_CACHE
                 (keys (caches (snd (onInstall (sampleEnv online) legacyWorld))))).
  { vm_compute. auto 10. }
  destruct (onActivate_prunes
              (snd (onInstall (sampleEnv online) legacyWorld)))
    as (_ & _ & _ & Hlive & _).
  apply (Hlive Hs Hd). apply distinct_NoDup. vm_compute. reflexivity.
Defined.

(** ** Background sync: eviction *)

Lemma alist_get_delete_all name us (cs : CacheStorage) :
  alist_get name
    (fold_left (fun cs u => alist_update name (alist_remove u) cs) us cs) =
  option_map (fun c => fold_left (fun acc u => alist_remove u acc) us c)
    (alist_get name cs).
Proof.
  unfold CacheStorage, Cache in *.
  revert cs. induction us as [|u us IH]; intros cs; simpl.
  - destruct (alist_get name cs); reflexivity.
  - rewrite IH, alist_get_update. destruct (alist_get name cs); reflexivity.
Qed.


Lemma deletedFrom_deletes name us :
  deletedFrom name (map (EvCacheDelete name) us) = us.
Proof.
  induction us as [|u us IH]; simpl; [reflexivity|].
  now rewrite String.eqb_refl, IH.
Qed.

Lemma evictDynamic_run w :
  evictDynamic w =
  (Return tt,
   mkWorld
     (fold_left (fun cs u => alist_update DYNAMIC_CACHE (alist_remove u) cs)
        (oldestRequests w) (opened DYNAMIC_CACHE (caches w)))
     (trace w ++ EvCachesOpen DYNAMIC_CACHE :: EvCacheKeys DYNAMIC_CACHE
              :: map (EvCacheDelete DYNAMIC_CACHE) (oldestRequests w))).
Proof.
  unfold evictDynamic. unfold bind at 1. rewrite caches_open_run.
  unfold bind at 1. unfold cache_keys, bind, emit, get_caches, ret.
  cbn beta iota. cbn [caches trace].
  rewrite alist_get_opened. fold (entriesOf DYNAMIC_CACHE w).
  unfold oldestRequests.
  set (requests := keys (entriesOf DYNAMIC_CACHE w)).
  destruct (Nat.ltb 50 (List.length requests)) eqn:E.
  - rewrite promise_all_cache_delete. cbn [caches trace].
    rewrite <- !app_assoc. reflexivity.
  - apply Nat.ltb_ge in E.
    replace (List.length requests - 50) with 0 by lia.
    cbn [firstn map fold_left]. rewrite <- !app_assoc. reflexivity.
Qed.

Lemma keys_length {V} (l : list (string * V)) :
  List.length (keys l) = List.length l.
Proof. apply length_map. Qed.

Lemma fetch_ok_run env rel w :
  let request := requestOf env rel in
  fetch_ok env rel w =
  if isHttp (href (url request)) then
    (match network env request with
     | Some r =>
         if ok r && negb (Z.eqb (status r) 206)
         then Return (requestKey request, r)
         else Throw (TypeError (href (url request)))
     | None => Throw (NetworkError (href (url request)))
     end,
     mkWorld (caches w) (trace w ++ [EvFetch (href (url request))]))
  else (Throw (TypeError (href (url request))), w).
Proof.
  intros request. unfold fetch_ok. fold request. cbv zeta.
  destruct (isHttp (href (url request))); [|reflexivity].
  unfold bind. rewrite fetch_run.
  destruct (network env request) as [r|]; [|reflexivity].
  now destruct (ok r && negb (Z.eqb (status r) 206)).
Qed.

(** [cache.add(rel)]: one fetch at most, and one write when the response
    is one the Cache API stores. *)
Lemma cache_add_run env name rel w :
  let request := requestOf env rel in
  match seedResponse env rel with
  | Some r =>
      cache_add env name rel w =
      (Return tt,
       mkWorld
         (alist_update name
            (fun c => alist_remove (requestKey request) c
                      ++ [(requestKey request, r)])%list
            (caches w))
         (trace w ++ [EvFetch (href (url request));
                      EvCachePut name (requestKey request)]))
  | None =>
      exists e,
        cache_add env name rel w =
        (Throw e,
         mkWorld (caches w)
           (trace w ++ if isHttp (href (url request))
                       then [EvFetch (href (url request))] else []))
  end.
Proof.
  intros request. unfold seedResponse, cache_add, cache_addAll, bind.
  cbn [map promise_all]. rewrite fetch_ok_run. fold request.
  change (href (resolve env rel)) with (href (url request)).
  destruct (isHttp (href (url request))).
  - destruct (network env request) as [r|].
    + destruct (ok r && negb (Z.eqb (status r) 206)).
      * unfold ret at 1. cbn [put_all]. unfold bind.
        rewrite store_entry_run. cbn [caches trace ret].
        now rewrite <- app_assoc.
      * eexists. reflexivity.
    + eexists. reflexivity.
  - eexists. unfold ret. rewrite app_nil_r. now destruct w.
Qed.





(** * Further properties of the worker *)

(** ** Relations every step of a computation keeps *)

Section Respects.
Variable R : World -> World -> Prop.
Hypothesis R_refl : forall w, R w w.
Hypothesis R_trans : forall w1 w2 w3, R w1 w2 -> R w2 w3 -> R w1 w3.

Lemma respects_ret {A} (a : A) : respects R (ret a).
Proof. intros w. apply R_refl. Qed.

Lemma respects_throw {A} e : respects R (@throw A e).
Proof. intros w. apply R_refl. Qed.

Lemma respects_bind {A B} (c : Js A) (k : A -> Js B) :
  respects R c -> (forall a, respects R (k a)) -> respects R (bind c k).
Proof.
  intros Hc Hk w. unfold bind. specialize (Hc w).
  destruct (c w) as [[a|e] w1]; simpl in *; [|assumption].
  eapply R_trans; [exact Hc | apply Hk].
Qed.

Lemma respects_try_catch {A} (c : Js A) h :
  respects R c -> (forall e, respects R (h e)) -> respects R (try_catch c h).
Proof.
  intros Hc Hh w. unfold try_catch. specialize (Hc w).
  destruct (c w) as [[a|e] w1]; simpl in *; [assumption|].
  eapply R_trans; [exact Hc | apply Hh].
Qed.

Lemma respects_promise_all {A} (ps : list (Js A)) :
  Forall (respects R) ps -> respects R (promise_all ps).
Proof.
  induction 1 as [|p ps Hp Hps IH]; intros w; [apply R_refl|].
  cbn [promise_all]. specialize (Hp w).
  destruct (p w) as [o w1]. specialize (IH w1).
  destruct (promise_all ps w1) as [os w2]. simpl in *.
  eapply R_trans; eassumption.
Qed.

Lemma respects_promise_allSettled {A} (ps : list (Js A)) :
  Forall (respects R) ps -> respects R (promise_allSettled ps).
Proof.
  induction 1 as [|p ps Hp Hps IH]; intros w; [apply R_refl|].
  cbn [promise_allSettled]. specialize (Hp w).
  destruct (p w) as [o w1]. specialize (IH w1).
  destruct (promise_allSettled ps w1) as [[l|e] w2]; simpl in *;
    eapply R_trans; eassumption.
Qed.

(** Relations on the storage alone are kept by the calls that only read. *)
Hypothesis R_storage : forall w w', caches w' = caches w -> R w w'.

Lemma respects_emit e : respects R (emit e).
Proof. intros w. now apply R_storage. Qed.

Lemma respects_fetch env request : respects R (fetch env request).
Proof.
  intros w. apply R_storage. unfold fetch, bind, emit. cbn beta iota.
  now destruct (network env request).
Qed.

Lemma respects_caches_match request : respects R (caches_match request).
Proof. intros w. now apply R_storage. Qed.

Lemma respects_caches_keys : respects R caches_keys.
Proof. intros w. now apply R_storage. Qed.

Lemma respects_cache_keys name : respects R (cache_keys name).
Proof. intros w. now apply R_storage. Qed.

Lemma respects_fetch_ok env rel : respects R (fetch_ok env rel).
Proof.
  unfold fetch_ok. cbv zeta.
  destruct (isHttp (href (url (requestOf env rel)))); [|apply respects_throw].
  apply respects_bind; [apply respects_fetch|].
  intros r. destruct (ok r && negb (Z.eqb (status r) 206));
    [apply respects_ret | apply respects_throw].
Qed.

(** The handlers that write only through [caches.open] and [cache.put] on
    the dynamic generation keep what these two keep. *)
Hypothesis R_open : respects R (caches_open DYNAMIC_CACHE).
Hypothesis R_put : forall u r, respects R (store_entry DYNAMIC_CACHE u r).

Lemma respects_put_all l : respects R (put_all DYNAMIC_CACHE l).
Proof.
  induction l as [|[u r] l IH]; cbn [put_all]; [apply respects_ret|].
  apply respects_bind; auto.
Qed.

Lemma respects_cache_add env rel : respects R (cache_add env DYNAMIC_CACHE rel).
Proof.
  unfold cache_add, cache_addAll. apply respects_bind.
  - apply respects_promise_all, Forall_map, Forall_forall.
    intros x _. apply respects_fetch_ok.
  - intros l. apply respects_put_all.
Qed.

Lemma respects_unawaited {A} (c : Js A) : respects R c -> respects R (unawaited c).
Proof. intros Hc w. apply Hc. Qed.

Lemma respects_cache_put request r :
  respects R (cache_put DYNAMIC_CACHE request r).
Proof.
  unfold cache_put. destruct (cacheable request r);
    [apply R_put | apply respects_throw].
Qed.

Lemma respects_store request r :
  respects R
    (caches_open DYNAMIC_CACHE ;;
     unawaited (cache_put DYNAMIC_CACHE request r)).
Proof.
  apply respects_bind; [exact R_open|].
  intros _. apply respects_unawaited, respects_cache_put.
Qed.

Lemma respects_cacheFirst env request : respects R (cacheFirst env request).
Proof.
  unfold cacheFirst. apply respects_try_catch.
  - apply respects_bind; [apply respects_caches_match|].
    intros [cached|]; [apply respects_ret|].
    apply respects_bind; [apply respects_fetch|]. intros r.
    apply respects_bind; [|intros _; apply respects_ret].
    destruct (ok r); [apply respects_store | apply respects_ret].
  - intros e. destruct (String.eqb (mode request) "navigate");
      [|apply respects_throw].
    apply respects_bind; [apply respects_caches_match|].
    intros [main|]; apply respects_ret.
Qed.

Lemma respects_networkFirst env request : respects R (networkFirst env request).
Proof.
  unfold networkFirst. apply respects_try_catch.
  - apply respects_bind; [apply respects_fetch|]. intros r.
    apply respects_bind; [|intros _; apply respects_ret].
    destruct (ok r && String.eqb (method request) "GET");
      [apply respects_store | apply respects_ret].
  - intros e. apply respects_bind; [apply respects_caches_match|].
    intros [cached|]; [apply respects_ret | apply respects_throw].
Qed.

Lemma respects_onFetch env request : respects R (onFetch env request).
Proof.
  unfold onFetch.
  match goal with |- context [if ?b then _ else _] => destruct b end;
    [apply respects_ret|].
  apply respects_bind; [|intros r; apply respects_ret].
  apply respects_try_catch.
  - destruct (getCacheStrategy env request);
      [apply respects_cacheFirst | apply respects_networkFirst].
  - intros e. apply respects_bind.
    + destruct (String.eqb (mode request) "navigate");
        [apply respects_caches_match | apply respects_ret].
    + intros [main|]; apply respects_ret.
Qed.

Lemma respects_prefetchOracle env : respects R (prefetchOracle env).
Proof.
  unfold prefetchOracle. apply respects_try_catch; [|intros; apply respects_ret].
  apply respects_bind; [exact R_open|]. intros _.
  apply respects_try_catch; [apply respects_cache_add | intros; apply respects_ret].
Qed.

(** With [cache.delete] on the dynamic generation kept too, the background
    sync is covered. *)
Hypothesis R_delete : forall u, respects R (cache_delete DYNAMIC_CACHE u).

Lemma respects_performBackgroundSync env :
  respects R (performBackgroundSync env).
Proof.
  unfold performBackgroundSync.
  apply respects_try_catch; [|intros; apply respects_ret].
  apply respects_bind.
  - unfold evictDynamic. apply respects_bind; [exact R_open|]. intros _.
    apply respects_bind; [apply respects_cache_keys|]. intros requests.
    destruct (Nat.ltb 50 (List.length requests)); [|apply respects_ret].
    apply respects_bind; [|intros; apply respects_ret].
    apply respects_promise_all, Forall_map, Forall_forall.
    intros u _. apply R_delete.
  - intros _. apply respects_try_catch;
      [apply respects_cache_add | intros; apply respects_ret].
Qed.

Lemma respects_onSync env tag : respects R (onSync env tag).
Proof.
  unfold onSync. destruct (String.eqb tag "background-sync");
    [apply respects_performBackgroundSync|].
  destruct (String.eqb tag "oracle-prefetch");
    [apply respects_prefetchOracle | apply respects_ret].
Qed.

End Respects.

(** ** More on association lists and the storage *)

Section AListMore.
Context {V : Type}.
Implicit Types (l : list (string * V)) (k : string).

Lemma alist_get_app k l l' :
  alist_get k (l ++ l')%list =
  match alist_get k l with
  | Some v => Some v
  | None => alist_get k l'
  end.
Proof.
  induction l as [|[k' v] l IH]; simpl; [reflexivity|].
  destruct (String.eqb k' k); [reflexivity | exact IH].
Qed.

Lemma alist_get_remove_same k l : alist_get k (alist_remove k l) = None.
Proof.
  unfold alist_remove.
  induction l as [|[k' v] l IH]; simpl; [reflexivity|].
  destruct (String.eqb k' k) eqn:E; simpl; [exact IH|].
  now rewrite E.
Qed.

Lemma alist_get_remove_other k k' l :
  k' <> k -> alist_get k' (alist_remove k l) = alist_get k' l.
Proof.
  intros Hne. unfold alist_remove.
  induction l as [|[k0 v] l IH]; simpl; [reflexivity|].
  destruct (String.eqb k0 k) eqn:E; simpl.
  - apply String.eqb_eq in E. subst k0.
    destruct (String.eqb k k') eqn:E'; [|exact IH].
    apply String.eqb_eq in E'. congruence.
  - destruct (String.eqb k0 k'); [reflexivity | exact IH].
Qed.

(** Lookup after [cache.put]: the key put answers the new value, every
    other key what it answered before. *)
Lemma alist_get_put k k' v l :
  alist_get k' (alist_remove k l ++ [(k, v)])%list =
  if String.eqb k k' then Some v else alist_get k' l.
Proof.
  rewrite alist_get_app. destruct (String.eqb k k') eqn:E.
  - apply String.eqb_eq in E. subst k'.
    rewrite alist_get_remove_same. simpl. now rewrite String.eqb_refl.
  - apply String.eqb_neq in E.
    rewrite alist_get_remove_other by congruence.
    destruct (alist_get k' l); [reflexivity|]. simpl.
    apply String.eqb_neq in E. now rewrite E.
Qed.

Lemma alist_get_update_other k k' (f : V -> V) l :
  k' <> k -> alist_get k' (alist_update k f l) = alist_get k' l.
Proof.
  intros Hne. unfold alist_update.
  induction l as [|[k0 v] l IH]; simpl; [reflexivity|].
  destruct (String.eqb k0 k) eqn:E; simpl.
  - apply String.eqb_eq in E. subst k0.
    destruct (String.eqb k k') eqn:E'; [|exact IH].
    apply String.eqb_eq in E'. congruence.
  - destruct (String.eqb k0 k'); [reflexivity | exact IH].
Qed.

(** Removing names one after the other is one filter. *)
Lemma remove_all_filter names l :
  fold_left (fun acc n => alist_remove n acc) names l =
  filter (fun g => negb (existsb (String.eqb (fst g)) names)) l.
Proof.
  revert l. induction names as [|n names IH]; intros l; simpl.
  - induction l as [|g l IHl]; simpl; [reflexivity | now rewrite <- IHl].
  - rewrite IH. unfold alist_remove.
    induction l as [|g l IHl]; simpl; [reflexivity|].
    destruct (String.eqb (fst g) n); simpl; [exact IHl|].
    destruct (existsb (String.eqb (fst g)) names); simpl; now rewrite IHl.
Qed.

(** Removing the keys that satisfy [p], read off the list itself, is
    filtering [p] out. *)
Lemma remove_selected_keys (p : string -> bool) l :
  fold_left (fun acc n => alist_remove n acc) (filter p (keys l)) l =
  filter (fun g => negb (p (fst g))) l.
Proof.
  rewrite remove_all_filter. apply filter_ext_in.
  intros g Hg. f_equal.
  destruct (p (fst g)) eqn:Hp.
  - apply existsb_exists. exists (fst g). split; [|apply String.eqb_refl].
    apply filter_In. split; [|exact Hp]. unfold keys. now apply in_map.
  - destruct (existsb (String.eqb (fst g)) (filter p (keys l))) eqn:E;
      [|reflexivity].
    apply existsb_exists in E. destruct E as [n [Hn Heq]].
    apply String.eqb_eq in Heq. subst n.
    apply filter_In in Hn. destruct Hn as [_ Hn]. congruence.
Qed.

Lemma alist_get_filter_keys (p : string -> bool) k l :
  p k = true -> alist_get k (filter (fun g => p (fst g)) l) = alist_get k l.
Proof.
  intros Hp. induction l as [|[k' v] l IH]; simpl; [reflexivity|].
  destruct (String.eqb k' k) eqn:E.
  - apply String.eqb_eq in E. subst k'. rewrite Hp. simpl.
    now rewrite String.eqb_refl.
  - destruct (p k'); simpl; [now rewrite E | exact IH].
Qed.
End AListMore.

Lemma alist_get_opened_other name n (cs : CacheStorage) :
  n <> name -> alist_get n (opened name cs) = alist_get n cs.
Proof.
  intros Hne. unfold opened. destruct (alist_get name cs); [reflexivity|].
  rewrite alist_get_app. destruct (alist_get n cs); [reflexivity|].
  simpl. destruct (String.eqb name n) eqn:E; [|reflexivity].
  apply String.eqb_eq in E. congruence.
Qed.

Lemma storage_match_app u (cs cs' : CacheStorage) :
  storage_match u (cs ++ cs')%list =
  match storage_match u cs with
  | Some r => Some r
  | None => storage_match u cs'
  end.
Proof.
  induction cs as [|[n c] cs IH]; simpl; [reflexivity|].
  destruct (alist_get u c); [reflexivity | exact IH].
Qed.

Lemma storage_match_None u (cs : CacheStorage) :
  storage_match u cs = None <->
  Forall (fun g => alist_get u (snd g) = None) cs.
Proof.
  induction cs as [|[n c] cs IH]; simpl.
  - split; [constructor | reflexivity].
  - destruct (alist_get u c) eqn:E.
    + split; [discriminate|]. intros H. inversion H; subst. simpl in *.
      congruence.
    + rewrite IH. split.
      * intros H. constructor; assumption.
      * intros H. now inversion H.
Qed.

(** An entry of some generation is found by [caches.match]. *)
Lemma storage_match_entry u name (cs : CacheStorage) c :
  alist_get name cs = Some c -> alist_get u c <> None ->
  storage_match u cs <> None.
Proof.
  induction cs as [|[n c'] cs IH]; simpl; [discriminate|].
  intros Hget Hu. destruct (String.eqb n name).
  - injection Hget as ->. destruct (alist_get u c); congruence.
  - destruct (alist_get u c'); [discriminate | now apply IH].
Qed.

(** After a put of [u] into the generation [name], [caches.match(u)] answers
    the response put, provided no other generation holds [u]. *)
Lemma storage_match_update u name r (f : Cache -> Cache) (cs : CacheStorage) :
  In name (keys cs) ->
  (forall c, alist_get u (f c) = Some r) ->
  Forall (fun g => fst g <> name -> alist_get u (snd g) = None) cs ->
  storage_match u (alist_update name f cs) = Some r.
Proof.
  intros Hin Hf Hall. induction cs as [|[n c] cs IH]; simpl in *; [tauto|].
  inversion Hall as [|? ? Hhead Htail]; subst. simpl in Hhead.
  destruct (String.eqb n name) eqn:E; simpl.
  - now rewrite Hf.
  - apply String.eqb_neq in E. rewrite (Hhead E).
    apply IH; [|assumption]. destruct Hin; [congruence | assumption].
Qed.

Lemma storage_match_update_keeps u name (f : Cache -> Cache) (cs : CacheStorage) :
  (forall c, alist_get u c <> None -> alist_get u (f c) <> None) ->
  storage_match u cs <> None ->
  storage_match u (alist_update name f cs) <> None.
Proof.
  intros Hf. induction cs as [|[n c] cs IH]; simpl; [auto|].
  destruct (alist_get u c) eqn:E.
  - intros _. destruct (String.eqb n name); simpl.
    + specialize (Hf c). rewrite E in Hf.
      destruct (alist_get u (f c)); [discriminate|]. exfalso. now apply Hf.
    + now rewrite E.
  - intros H. specialize (IH H).
    destruct (String.eqb n name); simpl.
    + destruct (alist_get u (f c)); [discriminate | exact IH].
    + rewrite E. exact IH.
Qed.

Lemma in_keys_opened name (cs : CacheStorage) : In name (keys (opened name cs)).
Proof.
  apply alist_get_in_keys. rewrite alist_get_opened. discriminate.
Qed.

Lemma entriesOf_caches name w w' :
  caches w' = caches w -> entriesOf name w' = entriesOf name w.
Proof. unfold entriesOf. now intros ->. Qed.

Lemma newEvents_refl w cs : newEvents w (mkWorld cs (trace w)) = [].
Proof. unfold newEvents. simpl. apply skipn_all. Qed.

(** ** What request handling and background work leave alone *)

Lemma sameOutside_refl name w : sameOutside name w w.
Proof. intros n _. reflexivity. Qed.

Lemma sameOutside_trans name w1 w2 w3 :
  sameOutside name w1 w2 -> sameOutside name w2 w3 -> sameOutside name w1 w3.
Proof. intros H12 H23 n Hn. rewrite H23, H12; auto. Qed.

Lemma sameOutside_storage name w w' :
  caches w' = caches w -> sameOutside name w w'.
Proof. intros E n _. now rewrite E. Qed.

Lemma sameOutside_open name : respects (sameOutside name) (caches_open name).
Proof.
  intros w n Hn. rewrite caches_open_run. cbn [snd caches].
  now apply alist_get_opened_other.
Qed.

Lemma sameOutside_put name u r :
  respects (sameOutside name) (store_entry name u r).
Proof.
  intros w n Hn. unfold store_entry. js_unfold. cbn [snd caches].
  now apply alist_get_update_other.
Qed.

Lemma sameOutside_delete name u :
  respects (sameOutside name) (cache_delete name u).
Proof.
  intros w n Hn. unfold cache_delete. js_unfold. cbn [snd caches].
  now apply alist_get_update_other.
Qed.

Lemma staysCached_refl w : staysCached w w.
Proof. intros u H. exact H. Qed.

Lemma staysCached_trans w1 w2 w3 :
  staysCached w1 w2 -> staysCached w2 w3 -> staysCached w1 w3.
Proof. intros H12 H23 u H. auto. Qed.

Lemma staysCached_storage w w' : caches w' = caches w -> staysCached w w'.
Proof. intros E u H. now rewrite E. Qed.

Lemma staysCached_open name : respects staysCached (caches_open name).
Proof.
  intros w u H. rewrite caches_open_run. cbn [snd caches]. unfold opened.
  destruct (alist_get name (caches w)); [exact H|].
  rewrite storage_match_app. destruct (storage_match u (caches w)); congruence.
Qed.

Lemma staysCached_put name u r : respects staysCached (store_entry name u r).
Proof.
  intros w u' H. unfold store_entry. js_unfold. cbn [snd caches].
  apply storage_match_update_keeps; [|exact H].
  intros c Hc. rewrite alist_get_put. now destruct (String.eqb u u').
Qed.

(** X1: handling a fetch event changes no generation but the dynamic one:
    whatever the request and the network, every other generation exists
    as before and holds the entries it held. *)
Theorem onFetch_touches_only_dynamic :
  forall env request w n,
    n <> DYNAMIC_CACHE ->
    alist_get n (caches (snd (onFetch env request w))) = alist_get n (caches w).
Proof.
  intros env request w n Hn.
  apply (respects_onFetch (sameOutside DYNAMIC_CACHE)
           (sameOutside_refl _) (sameOutside_trans _) (sameOutside_storage _)
           (sameOutside_open _) (sameOutside_put _) env request w n Hn).
Qed.

Lemma onFetch_touches_only_dynamic_witness :
  alist_get STATIC_CACHE
    (caches (snd (onFetch (sampleEnv online) (appRequest "/app.js" "no-cors")
                    crowdedWorld)))
  = alist_get STATIC_CACHE (caches crowdedWorld).
Proof.
  apply (onFetch_touches_only_dynamic (sampleEnv online)
           (appRequest "/app.js" "no-cors") crowdedWorld STATIC_CACHE).
  discriminate.
Defined.

(** X2: handling a fetch event never evicts: a URL for which
    [caches.match] had a response before (some generation holds an entry
    under it) still has one after, whatever the request and the network. *)
Theorem onFetch_never_evicts :
  forall env request w u,
    storage_match u (caches w) <> None ->
    storage_match u (caches (snd (onFetch env request w))) <> None.
Proof.
  intros env request w u.
  apply (respects_onFetch staysCached staysCached_refl staysCached_trans
           staysCached_storage (staysCached_open _) (staysCached_put _)
           env request w u).
Qed.

Lemma onFetch_never_evicts_witness :
  storage_match (appOrigin ++ "/api/0")
    (caches (snd (onFetch (sampleEnv online) (appRequest "/app.js" "no-cors")
                    crowdedWorld)))
  <> None.
Proof.
  apply (onFetch_never_evicts (sampleEnv online)
           (appRequest "/app.js" "no-cors") crowdedWorld (appOrigin ++ "/api/0")).
  vm_compute. discriminate.
Defined.

(** X3: the sync listener changes no generation but the dynamic one,
    whatever the tag and the network: eviction and re-seeding never reach
    the static generation or a foreign cache. *)
Theorem onSync_touches_only_dynamic :
  forall env tag w n,
    n <> DYNAMIC_CACHE ->
    alist_get n (caches (snd (onSync env tag w))) = alist_get n (caches w).
Proof.
  intros env tag w n Hn.
  apply (respects_onSync (sameOutside DYNAMIC_CACHE)
           (sameOutside_refl _) (sameOutside_trans _) (sameOutside_storage _)
           (sameOutside_open _) (sameOutside_put _) (sameOutside_delete _)
           env tag w n Hn).
Qed.

Lemma onSync_touches_only_dynamic_witness :
  alist_get STATIC_CACHE
    (caches (snd (onSync (sampleEnv online) "background-sync" crowdedWorld)))
  = alist_get STATIC_CACHE (caches crowdedWorld).
Proof.
  apply (onSync_touches_only_dynamic (sampleEnv online) "background-sync"
           crowdedWorld STATIC_CACHE).
  discriminate.
Defined.

(** ** The executors on a reachable network *)

Lemma storage_match_opened u name (cs : CacheStorage) :
  storage_match u (opened name cs) = storage_match u cs.
Proof.
  unfold opened. destruct (alist_get name cs); [reflexivity|].
  rewrite storage_match_app. now destruct (storage_match u cs).
Qed.

Lemma matchRequest_opened request name (cs : CacheStorage) :
  matchRequest request (opened name cs) = matchRequest request cs.
Proof. unfold matchRequest. now rewrite storage_match_opened. Qed.

Lemma cacheable_GET request r : cacheable request r = true -> method request = "GET".
Proof.
  unfold cacheable. rewrite !andb_true_iff. intros [[H _] _].
  now apply String.eqb_eq.
Qed.

Lemma afterPut_refused request r w : cacheable request r = false -> afterPut request r w = w.
Proof. unfold afterPut. now intros ->. Qed.

Lemma trace_afterPut request r w :
  trace (afterPut request r w) =
  (trace w ++ if cacheable request r
              then [EvCachePut DYNAMIC_CACHE (requestKey request)] else [])%list.
Proof.
  unfold afterPut. destruct (cacheable request r); [reflexivity|].
  now rewrite app_nil_r.
Qed.

(** The dynamic generation after an accepted put on the opened storage. *)
Lemma entriesOf_afterPut request r cs tr :
  cacheable request r = true ->
  entriesOf DYNAMIC_CACHE
    (afterPut request r (mkWorld (opened DYNAMIC_CACHE cs) tr))
  = (alist_remove (requestKey request) (entriesOf DYNAMIC_CACHE (mkWorld cs tr))
     ++ [(requestKey request, r)])%list.
Proof.
  intros Hc. unfold afterPut. rewrite Hc, store_entry_run.
  unfold entriesOf. cbn [snd caches].
  rewrite alist_get_update, alist_get_opened. reflexivity.
Qed.

(** After an accepted put, the lookup of the key answers the response put,
    provided no other generation holds the key. *)
Lemma storage_match_afterPut request r cs tr :
  cacheable request r = true ->
  Forall (fun g => fst g <> DYNAMIC_CACHE ->
                   alist_get (requestKey request) (snd g) = None) cs ->
  storage_match (requestKey request)
    (caches (afterPut request r (mkWorld (opened DYNAMIC_CACHE cs) tr)))
  = Some r.
Proof.
  intros Hc Hall. unfold afterPut. rewrite Hc, store_entry_run.
  cbn [snd caches]. apply storage_match_update.
  - apply in_keys_opened.
  - intros c. rewrite alist_get_put. now rewrite String.eqb_refl.
  - unfold opened.
    match goal with |- Forall _ (match ?x with _ => _ end) => destruct x end;
      [exact Hall|].
    apply Forall_app. split; [exact Hall | repeat constructor].
Qed.

Lemma storage_match_afterPut_some request r cs tr :
  cacheable request r = true ->
  storage_match (requestKey request)
    (caches (afterPut request r (mkWorld (opened DYNAMIC_CACHE cs) tr)))
  <> None.
Proof.
  intros Hc. unfold afterPut. rewrite Hc, store_entry_run. cbn [snd caches].
  eapply storage_match_entry.
  - rewrite alist_get_update, alist_get_opened. reflexivity.
  - rewrite alist_get_put, String.eqb_refl. discriminate.
Qed.

(** X4: a cache-first miss answered by the network with an [ok] response
    is returned, and memoized when [cache.put] accepts it (a GET over http
    or https, a status other than 206): the response becomes the last entry
    of the dynamic generation, and from then on the same request is a hit,
    answered with that response without any fetch, on any network. When
    [cache.put] refuses it, nothing is memoized and the request still
    misses. *)
Theorem cacheFirst_miss_then_hit :
  forall env request w r,
    matchRequest request (caches w) = None ->
    network env request = Some r ->
    ok r = true ->
    let w1 := snd (cacheFirst env request w) in
    fst (cacheFirst env request w) = Return r /\
    (cacheable request r = true ->
     entriesOf DYNAMIC_CACHE w1 =
     (entriesOf DYNAMIC_CACHE w ++ [(requestKey request, r)])%list /\
     matchRequest request (caches w1) = Some r /\
     (forall env',
        fst (cacheFirst env' request w1) = Return r /\
        fetchCount (newEvents w1 (snd (cacheFirst env' request w1))) = 0)) /\
    (cacheable request r = false ->
     caches w1 = opened DYNAMIC_CACHE (caches w) /\
     matchRequest request (caches w1) = None).
Proof.
  intros env request w r Hmiss Hnet Hok w1.
  unfold w1. rewrite (cacheFirst_miss_ok_run env request w r Hmiss Hnet Hok).
  cbn [fst snd]. split; [reflexivity|]. split.
  - intros Hc. pose proof (cacheable_GET request r Hc) as Hget.
    assert (Hnone : storage_match (requestKey request) (caches w) = None).
    { unfold matchRequest in Hmiss. now rewrite Hget in Hmiss. }
    assert (Hhit : matchRequest request
                     (caches (afterPut request r
                                (mkWorld (opened DYNAMIC_CACHE (caches w))
                                   (trace w ++
                                    [EvCachesMatch (href (url request));
                                     EvFetch (href (url request));
                                     EvCachesOpen DYNAMIC_CACHE]))))
                   = Some r).
    { apply matchRequest_Some. split; [exact Hget|].
      apply storage_match_afterPut; [exact Hc|].
      apply storage_match_None in Hnone.
      eapply Forall_impl; [|exact Hnone]. auto. }
    split; [|split; [exact Hhit|]].
    + rewrite entriesOf_afterPut by exact Hc.
      rewrite alist_remove_absent; [reflexivity|].
      intros Hin. apply alist_get_in_keys in Hin. apply Hin.
      unfold entriesOf. cbn [caches].
      destruct (alist_get DYNAMIC_CACHE (caches w)) as [c|] eqn:E; [|reflexivity].
      destruct (alist_get (requestKey request) c) eqn:E'; [|reflexivity].
      exfalso. eapply storage_match_entry; eauto. congruence.
    + intros env'. rewrite (cacheFirst_hit_run env' request _ r Hhit).
      cbn [fst snd]. rewrite newEvents_app. auto.
  - intros Hc. rewrite (afterPut_refused request r _ Hc). cbn [caches].
    split; [reflexivity|]. now rewrite matchRequest_opened.
Qed.

Lemma cacheFirst_miss_then_hit_witness :
  fst (cacheFirst (sampleEnv offline) (fragmentRequest "/app.js" "v1" "no-cors")
         (snd (cacheFirst (sampleEnv online)
                 (fragmentRequest "/app.js" "v1" "no-cors") legacyWorld)))
  = Return page /\
  matchRequest (appRequest "/app.js" "no-cors")
    (caches (snd (cacheFirst (sampleEnv (fun _ => Some partialPage))
                    (appRequest "/app.js" "no-cors") legacyWorld)))
  = None.
Proof.
  split.
  - destruct (proj1 (proj2 (cacheFirst_miss_then_hit (sampleEnv online)
                              (fragmentRequest "/app.js" "v1" "no-cors")
                              legacyWorld page eq_refl eq_refl eq_refl))
                eq_refl) as (_ & _ & Hhit).
    apply (Hhit (sampleEnv offline)).
  - apply (proj2 (proj2 (cacheFirst_miss_then_hit
                           (sampleEnv (fun _ => Some partialPage))
                           (appRequest "/app.js" "no-cors")
                           legacyWorld partialPage eq_refl eq_refl eq_refl))
             eq_refl).
Defined.

(** X5: a network-first GET answered with an [ok] response is returned,
    and refreshes the dynamic generation when [cache.put] accepts it (http
    or https, a status other than 206): the response replaces the entry of
    the request and is enumerated last; if the network then goes down, the
    same request no longer fails, and it is answered with that response
    when no other generation holds the URL. When [cache.put] refuses the
    response, nothing is stored and the offline answer is what it was. *)
Theorem networkFirst_online_then_offline :
  forall env request w r,
    network env request = Some r ->
    ok r = true ->
    method request = "GET" ->
    let key := requestKey request in
    let w1 := snd (networkFirst env request w) in
    fst (networkFirst env request w) = Return r /\
    (cacheable request r = true ->
     entriesOf DYNAMIC_CACHE w1 =
     (alist_remove key (entriesOf DYNAMIC_CACHE w) ++ [(key, r)])%list /\
     (forall env',
        network env' request = None ->
        exists r', fst (networkFirst env' request w1) = Return r') /\
     (Forall (fun g => fst g <> DYNAMIC_CACHE -> alist_get key (snd g) = None)
             (caches w) ->
      forall env',
        network env' request = None ->
        fst (networkFirst env' request w1) = Return r)) /\
    (cacheable request r = false ->
     caches w1 = opened DYNAMIC_CACHE (caches w) /\
     forall env',
       network env' request = None ->
       fst (networkFirst env' request w1) = fst (networkFirst env' request w)).
Proof.
  intros env request w r Hnet Hok Hget key w1.
  unfold w1. rewrite (networkFirst_ok_run env request w r Hnet Hok Hget).
  cbn [fst snd]. split; [reflexivity|]. split.
  - intros Hc. split; [|split].
    + rewrite entriesOf_afterPut by exact Hc. now destruct w.
    + intros env' Hdown. rewrite (networkFirst_down_run env' request _ Hdown).
      cbn [fst]. unfold matchRequest. rewrite Hget.
      cbn [String.eqb Ascii.eqb Bool.eqb].
      pose proof (storage_match_afterPut_some request r (caches w)
                    (trace w ++ [EvFetch (href (url request));
                                 EvCachesOpen DYNAMIC_CACHE]) Hc) as Hsome.
      destruct (storage_match (requestKey request) _) as [r'|];
        [eauto | congruence].
    + intros Hall env' Hdown.
      rewrite (networkFirst_down_run env' request _ Hdown).
      cbn [fst]. unfold matchRequest. rewrite Hget.
      cbn [String.eqb Ascii.eqb Bool.eqb].
      now rewrite storage_match_afterPut.
  - intros Hc. rewrite (afterPut_refused request r _ Hc). cbn [caches].
    split; [reflexivity|]. intros env' Hdown.
    rewrite !(networkFirst_down_run env' request _ Hdown). cbn [fst caches].
    now rewrite matchRequest_opened.
Qed.

Lemma networkFirst_online_then_offline_witness :
  fst (networkFirst (sampleEnv offline) (appRequest "/api/daily" "cors")
         (snd (networkFirst (sampleEnv online) (appRequest "/api/daily" "cors")
                 legacyWorld)))
  = Return page /\
  caches (snd (networkFirst (sampleEnv (fun _ => Some partialPage))
                 (appRequest "/api/daily" "cors") shellWorld))
  = caches shellWorld.
Proof.
  split.
  - destruct (proj1 (proj2 (networkFirst_online_then_offline (sampleEnv online)
                              (appRequest "/api/daily" "cors") legacyWorld page
                              eq_refl eq_refl eq_refl)) eq_refl)
      as (_ & _ & Hsame).
    apply (Hsame ltac:(repeat constructor) (sampleEnv offline) eq_refl).
  - apply (proj2 (proj2 (networkFirst_online_then_offline
                           (sampleEnv (fun _ => Some partialPage))
                           (appRequest "/api/daily" "cors") shellWorld
                           partialPage eq_refl eq_refl eq_refl))
             eq_refl).
Defined.

(** X6: [networkFirst] never stores the answer to a request that is not a
    GET: the response is returned as the network gave it and the storage is
    as it was. *)
Theorem networkFirst_non_GET_not_stored :
  forall env request w r,
    method request <> "GET" ->
    network env request = Some r ->
    networkFirst env request w =
    (Return r, mkWorld (caches w) (trace w ++ [EvFetch (href (url request))])).
Proof.
  intros env request w r Hm Hnet.
  apply networkFirst_not_stored_run; [exact Hnet|].
  apply String.eqb_neq in Hm. now rewrite Hm, andb_false_r.
Qed.

Lemma networkFirst_non_GET_not_stored_witness :
  caches (snd (networkFirst (sampleEnv online)
                 (mkRequest (mkURL (appOrigin ++ "/api/oracle") appOrigin
                               "/api/oracle") "POST" "cors")
                 legacyWorld))
  = caches legacyWorld.
Proof.
  rewrite (networkFirst_non_GET_not_stored (sampleEnv online)
             (mkRequest (mkURL (appOrigin ++ "/api/oracle") appOrigin
                           "/api/oracle") "POST" "cors")
             legacyWorld page); [reflexivity | discriminate | reflexivity].
Defined.

(** ** The dispatcher's last resort *)

(** X7: what an intercepted request gets when the network is down and
    [caches.match] has no answer for it. A navigation gets the cached main
    document; with none cached it gets the 503 placeholder under cache-first
    and the 404 placeholder under network-first. Any other request gets the
    404 placeholder. The storage is left as it was. *)
Theorem onFetch_offline_fallback :
  forall env request w,
    method request = "GET" ->
    startsWith (href (url request)) "chrome-extension://" = false ->
    startsWith (href (url request)) "moz-extension://" = false ->
    network env request = None ->
    matchRequest request (caches w) = None ->
    fst (onFetch env request w) =
    Return
      (RespondWith
         (if String.eqb (mode request) "navigate" then
            match matchRequest (requestOf env "./index.html") (caches w) with
            | Some main => main
            | None =>
                match getCacheStrategy env request with
                | CacheFirst => offlineResponse
                | NetworkFirst => unavailableResponse
                end
            end
          else unavailableResponse)) /\
    caches (snd (onFetch env request w)) = caches w.
Proof.
  intros env request w Hget Hc Hm Hdown Hmiss.
  unfold onFetch. rewrite Hget, Hc, Hm.
  cbn [negb orb String.eqb Ascii.eqb Bool.eqb].
  unfold bind, try_catch.
  destruct (getCacheStrategy env request).
  - rewrite (cacheFirst_down_run env request w Hmiss Hdown).
    destruct (String.eqb (mode request) "navigate").
    + cbn [fst snd ret caches]. split; [|reflexivity].
      now destruct (matchRequest (requestOf env "./index.html") (caches w)).
    + unfold ret. cbn [fst snd caches]. auto.
  - rewrite (networkFirst_down_run env request w Hdown), Hmiss.
    destruct (String.eqb (mode request) "navigate").
    + rewrite caches_match_run. cbn [fst snd caches trace].
      destruct (matchRequest (requestOf env "./index.html") (caches w));
        cbn [fst snd caches ret]; auto.
    + unfold ret. cbn [fst snd caches]. auto.
Qed.

Lemma onFetch_offline_fallback_witness :
  fst (onFetch (sampleEnv offline) (appRequest "/oracle" "navigate") legacyWorld)
  = Return (RespondWith unavailableResponse) /\
  fst (onFetch (sampleEnv offline) (appRequest "/oracle.html" "navigate")
         legacyWorld)
  = Return (RespondWith offlineResponse) /\
  fst (onFetch (sampleEnv offline) (fragmentRequest "/about" "team" "navigate")
         shellWorld)
  = Return (RespondWith page).
Proof.
  split; [|split].
  - apply (onFetch_offline_fallback (sampleEnv offline)
             (appRequest "/oracle" "navigate") legacyWorld
             eq_refl eq_refl eq_refl eq_refl eq_refl).
  - apply (onFetch_offline_fallback (sampleEnv offline)
             (appRequest "/oracle.html" "navigate") legacyWorld
             eq_refl eq_refl eq_refl eq_refl eq_refl).
  - apply (onFetch_offline_fallback (sampleEnv offline)
             (fragmentRequest "/about" "team" "navigate") shellWorld
             eq_refl eq_refl eq_refl eq_refl eq_refl).
Defined.

Lemma onFetch_responds_witness :
  exists r,
    fst (onFetch (sampleEnv offline) (appRequest "/api/oracle" "cors")
           legacyWorld)
    = Return (RespondWith r).
Proof.
  apply (onFetch_responds (sampleEnv offline) (appRequest "/api/oracle" "cors")
           legacyWorld eq_refl eq_refl eq_refl).
Defined.

Ltac trace_count :=
  rewrite <- ?app_assoc; eexists; split;
  [first [reflexivity | symmetry; apply app_nil_r] | cbn; lia].

Lemma cacheFirst_trace env request w :
  exists es,
    trace (snd (cacheFirst env request w)) = (trace w ++ es)%list /\
    fetchCount es <= 1.
Proof.
  unfold fetchCount.
  destruct (matchRequest request (caches w)) as [cached|] eqn:Hm.
  - rewrite (cacheFirst_hit_run env request w cached Hm). cbn [snd trace].
    trace_count.
  - destruct (network env request) as [r|] eqn:Hnet.
    + destruct (ok r) eqn:Hok.
      * rewrite (cacheFirst_miss_ok_run env request w r Hm Hnet Hok).
        cbn [snd]. rewrite trace_afterPut. cbn [trace].
        destruct (cacheable request r); trace_count.
      * rewrite (cacheFirst_miss_not_ok_run env request w r Hm Hnet Hok).
        cbn [snd trace]. trace_count.
    + rewrite (cacheFirst_down_run env request w Hm Hnet).
      destruct (String.eqb (mode request) "navigate"); cbn [snd trace];
        trace_count.
Qed.

Lemma networkFirst_trace env request w :
  exists es,
    trace (snd (networkFirst env request w)) = (trace w ++ es)%list /\
    fetchCount es <= 1.
Proof.
  unfold fetchCount.
  destruct (network env request) as [r|] eqn:Hnet.
  - destruct (ok r && String.eqb (method request) "GET") eqn:Hs.
    + apply andb_true_iff in Hs. destruct Hs as [Hok Hget].
      apply String.eqb_eq in Hget.
      rewrite (networkFirst_ok_run env request w r Hnet Hok Hget).
      cbn [snd]. rewrite trace_afterPut. cbn [trace].
      destruct (cacheable request r); trace_count.
    + rewrite (networkFirst_not_stored_run env request w r Hnet Hs).
      cbn [snd trace]. trace_count.
  - rewrite (networkFirst_down_run env request w Hnet). cbn [snd trace].
    trace_count.
Qed.

Lemma onFetch_trace env request w :
  exists es,
    trace (snd (onFetch env request w)) = (trace w ++ es)%list /\
    fetchCount es <= 1.
Proof.
  unfold onFetch.
  match goal with |- context [if ?b then _ else _] => destruct b end.
  - unfold ret, fetchCount. cbn [snd]. trace_count.
  - unfold bind, try_catch.
    assert (Hexec : exists es,
               trace (snd (match getCacheStrategy env request with
                           | CacheFirst => cacheFirst env request
                           | NetworkFirst => networkFirst env request
                           end w)) = (trace w ++ es)%list /\
               fetchCount es <= 1).
    { destruct (getCacheStrategy env request);
        [apply cacheFirst_trace | apply networkFirst_trace]. }
    destruct Hexec as (es & Htrace & Hcount).
    destruct (match getCacheStrategy env request with
              | CacheFirst => cacheFirst env request
              | NetworkFirst => networkFirst env request
              end w) as [[r|e] w1]; cbn [snd] in Htrace.
    + exists es. cbn [snd ret]. auto.
    + destruct (String.eqb (mode request) "navigate").
      * rewrite caches_match_run.
        exists (es ++ [EvCachesMatch (href (url (requestOf env "./index.html")))])%list.
        split.
        { destruct (matchRequest _ (caches w1)); cbn [snd trace ret];
            now rewrite Htrace, app_assoc. }
        { unfold fetchCount in *. rewrite filter_app, length_app. cbn. lia. }
      * exists es. cbn [snd ret]. auto.
Qed.

(** X9: one network attempt at most. Handling a fetch event, whatever the
    request, the storage and the network, calls [fetch] once or not at
    all: nothing is retried, and the fallbacks never go to the network. *)
Theorem onFetch_fetches_at_most_once :
  forall env request w,
    fetchCount (newEvents w (snd (onFetch env request w))) <= 1.
Proof.
  intros env request w.
  destruct (onFetch_trace env request w) as (es & Htrace & Hcount).
  unfold newEvents. rewrite Htrace, skipn_app, skipn_all, Nat.sub_diag.
  exact Hcount.
Qed.

(** X8: the fetch listener never fails. It steps aside exactly for the
    requests that are not GET or that target a browser extension; every
    other request is answered with a response, whatever the storage and
    the network: the executors' failures end in a placeholder. *)
Theorem onFetch_always_settles :
  forall env request w,
    exists i,
      fst (onFetch env request w) = Return i /\
      (i = PassThrough <->
       method request <> "GET" \/
       startsWith (href (url request)) "chrome-extension://" = true \/
       startsWith (href (url request)) "moz-extension://" = true).
Proof.
  intros env request w.
  destruct (String.eqb (method request) "GET") eqn:Hget;
    [apply String.eqb_eq in Hget | apply String.eqb_neq in Hget].
  - destruct (startsWith (href (url request)) "chrome-extension://") eqn:Hc.
    + exists PassThrough. unfold onFetch. rewrite Hc, orb_true_r. cbn [orb].
      split; [reflexivity | tauto].
    + destruct (startsWith (href (url request)) "moz-extension://") eqn:Hm.
      * exists PassThrough. unfold onFetch. rewrite Hm, orb_true_r.
        split; [reflexivity | tauto].
      * destruct (onFetch_responds env request w Hget Hc Hm) as [r Hr].
        exists (RespondWith r). split; [exact Hr|].
        split; [discriminate|]. intros [H | [H | H]]; congruence.
  - exists PassThrough. unfold onFetch.
    apply String.eqb_neq in Hget. rewrite Hget.
    split; [reflexivity|]. apply String.eqb_neq in Hget. tauto.
Qed.

(** ** Lifecycle: what pruning and cleanup keep *)

Lemma isOldVersion_isStale n : isOldVersion n = true -> isStale n = true.
Proof.
  unfold isOldVersion, isStale. rewrite !andb_true_iff, !negb_true_iff.
  intros [Hp Hv]. split; [exact Hp|]. simpl. rewrite orb_false_r.
  apply orb_false_iff. split; apply String.eqb_neq; intros ->; discriminate Hv.
Qed.

Lemma onActivate_caches w :
  caches (snd (onActivate w)) = filter (fun g => negb (isStale (fst g))) (caches w).
Proof.
  rewrite onActivate_run. cbn [snd caches]. unfold staleGenerations.
  apply remove_selected_keys.
Qed.

Lemma cleanupCaches_run w :
  fst (cleanupCaches w) = Return tt /\
  caches (snd (cleanupCaches w)) =
  filter (fun g => negb (isOldVersion (fst g))) (caches w).
Proof.
  rewrite <- (remove_selected_keys isOldVersion).
  unfold cleanupCaches, try_catch. unfold bind at 1.
  unfold caches_keys, bind, emit, get_caches, ret.
  cbn beta iota. cbn [caches trace].
  destruct (filter isOldVersion (keys (caches w))) as [|n names] eqn:E.
  - cbn [List.length Nat.ltb Nat.leb fst snd caches fold_left]. auto.
  - cbn [List.length Nat.ltb Nat.leb].
    rewrite promise_all_caches_delete. cbn [fst snd caches trace]. auto.
Qed.

Lemma filter_idempotent {A} (p : A -> bool) l :
  filter p (filter p l) = filter p l.
Proof.
  induction l as [|x l IH]; simpl; [reflexivity|].
  destruct (p x) eqn:E; simpl; [rewrite E; f_equal|]; exact IH.
Qed.

(** X10: activation removes the stale generations and nothing else: the
    storage is the old one without them, in the same order; a generation
    that is not stale (a live one, or a cache of another application) keeps
    its entries; activating again changes nothing. *)
Theorem onActivate_keeps_the_rest :
  forall w,
    let w' := snd (onActivate w) in
    caches w' = filter (fun g => negb (isStale (fst g))) (caches w) /\
    (forall n, isStale n = false ->
               alist_get n (caches w') = alist_get n (caches w)) /\
    caches (snd (onActivate w')) = caches w'.
Proof.
  intros w w'. unfold w'. rewrite !onActivate_caches.
  split; [reflexivity|]. split.
  - intros n Hn.
    apply (alist_get_filter_keys (fun k => negb (isStale k))).
    now rewrite Hn.
  - apply filter_idempotent.
Qed.

Lemma onActivate_keeps_the_rest_witness :
  alist_get "weather-app-v3" (caches (snd (onActivate legacyWorld)))
  = alist_get "weather-app-v3" (caches legacyWorld).
Proof.
  apply (onActivate_keeps_the_rest legacyWorld). reflexivity.
Defined.

(** X11: [cleanupCaches] deletes the generations of the application whose
    name lacks the version string, and only those. Each of them is stale
    for the activate listener as well, so the live generations and foreign
    caches are never deleted, and on a storage that activation has pruned
    the cleanup deletes nothing. It never rejects. *)
Theorem cleanupCaches_spec :
  forall w,
    fst (cleanupCaches w) = Return tt /\
    caches (snd (cleanupCaches w)) =
    filter (fun g => negb (isOldVersion (fst g))) (caches w) /\
    (forall n, isStale n = false ->
               alist_get n (caches (snd (cleanupCaches w)))
               = alist_get n (caches w)) /\
    caches (snd (cleanupCaches (snd (onActivate w)))) = caches (snd (onActivate w)).
Proof.
  intros w. destruct (cleanupCaches_run w) as [Hret Hcs].
  split; [exact Hret|]. split; [exact Hcs|]. split.
  - intros n Hn. rewrite Hcs.
    apply (alist_get_filter_keys (fun k => negb (isOldVersion k))).
    destruct (isOldVersion n) eqn:E; [|reflexivity].
    apply isOldVersion_isStale in E. congruence.
  - rewrite (proj2 (cleanupCaches_run _)), onActivate_caches.
    clear Hret Hcs.
    induction (caches w) as [|g cs IH]; simpl; [reflexivity|].
    destruct (isStale (fst g)) eqn:Hs; simpl; [exact IH|].
    destruct (isOldVersion (fst g)) eqn:Ho.
    + apply isOldVersion_isStale in Ho. congruence.
    + simpl. now rewrite IH.
Qed.

Lemma cleanupCaches_spec_witness :
  alist_get DYNAMIC_CACHE (caches (snd (cleanupCaches crowdedWorld)))
  = alist_get DYNAMIC_CACHE (caches crowdedWorld).
Proof.
  apply (cleanupCaches_spec crowdedWorld). reflexivity.
Defined.

(** ** The message listener *)

Lemma appGenerations_cleared (cs : CacheStorage) tr :
  appGenerations
    (mkWorld (filter (fun g => negb (startsWith (fst g) "matteo-declic-")) cs) tr)
  = [].
Proof.
  unfold appGenerations, keys. cbn [caches].
  induction cs as [|g cs IH]; simpl; [reflexivity|].
  destruct (startsWith (fst g) "matteo-declic-") eqn:E; simpl; [exact IH|].
  now rewrite E.
Qed.

(** X12: on a [CLEAR_CACHE] message every generation of the application is
    deleted, the live ones included, and nothing else: the caches of other
    applications keep their entries. The listener replies with a success
    when the message came with a port. *)
Theorem onMessage_clear_cache :
  forall event w,
    dataType event = Some "CLEAR_CACHE" ->
    let w' := snd (onMessage event w) in
    fst (onMessage event w)
    = Return (if hasPort event then Some ReplySuccess else None) /\
    caches w' =
    filter (fun g => negb (startsWith (fst g) "matteo-declic-")) (caches w) /\
    appGenerations w' = [] /\
    (forall n, startsWith n "matteo-declic-" = false ->
               alist_get n (caches w') = alist_get n (caches w)).
Proof.
  intros event w Htype w'.
  assert (E : onMessage event w =
              (Return (postMessage event ReplySuccess),
               mkWorld
                 (filter (fun g => negb (startsWith (fst g) "matteo-declic-"))
                    (caches w))
                 (trace w ++ EvCachesKeys
                    :: map EvCachesDelete
                         (filter (fun n => startsWith n "matteo-declic-")
                            (keys (caches w)))))).
  { unfold onMessage. rewrite Htype. cbn [String.eqb Ascii.eqb Bool.eqb].
    unfold bind at 1. unfold caches_keys, bind, emit, get_caches, ret.
    cbn beta iota. cbn [caches trace].
    rewrite promise_all_caches_delete. cbn [caches trace].
    rewrite remove_selected_keys, <- app_assoc. reflexivity. }
  unfold w'. rewrite E. cbn [fst snd]. split; [reflexivity|].
  split; [reflexivity|]. split; [apply appGenerations_cleared|].
  intros n Hn. cbn [caches].
  apply (alist_get_filter_keys (fun k => negb (startsWith k "matteo-declic-"))).
  now rewrite Hn.
Qed.

Lemma onMessage_clear_cache_witness :
  appGenerations
    (snd (onMessage (mkMessageEvent (Some "CLEAR_CACHE") true) crowdedWorld))
  = [].
Proof.
  apply (onMessage_clear_cache (mkMessageEvent (Some "CLEAR_CACHE") true)
           crowdedWorld eq_refl).
Defined.

(** X13: no other message touches the storage. A message whose type is not
    [CLEAR_CACHE] leaves every cache as it was and never makes the listener
    fail; a message without a type, or with a type the listener does not
    know, changes nothing at all and gets no reply. *)
Theorem onMessage_other_types :
  forall event w,
    dataType event <> Some "CLEAR_CACHE" ->
    (exists reply, fst (onMessage event w) = Return reply) /\
    caches (snd (onMessage event w)) = caches w /\
    (dataType event <> Some "SKIP_WAITING" ->
     dataType event <> Some "GET_VERSION" ->
     dataType event <> Some "PREFETCH_ORACLE" ->
     onMessage event w = (Return None, w)).
Proof.
  intros event w Hclear. unfold onMessage.
  destruct (dataType event) as [type|];
    [|split; [eexists; reflexivity | split; [reflexivity | reflexivity]]].
  destruct (String.eqb type "SKIP_WAITING") eqn:E1.
  { apply String.eqb_eq in E1. subst type.
    split; [eexists; reflexivity | split; [reflexivity | intros H; congruence]]. }
  destruct (String.eqb type "GET_VERSION") eqn:E2.
  { apply String.eqb_eq in E2. subst type.
    split; [eexists; reflexivity | split; [reflexivity | intros _ H; congruence]]. }
  destruct (String.eqb type "CLEAR_CACHE") eqn:E3.
  { apply String.eqb_eq in E3. congruence. }
  destruct (String.eqb type "PREFETCH_ORACLE") eqn:E4.
  { apply String.eqb_eq in E4. subst type.
    split; [eexists; reflexivity | split; [reflexivity | intros _ _ H; congruence]]. }
  split; [eexists; reflexivity | split; reflexivity].
Qed.

Lemma onMessage_other_types_witness :
  caches (snd (onMessage (mkMessageEvent (Some "GET_VERSION") true) crowdedWorld))
  = caches crowdedWorld /\
  onMessage (mkMessageEvent (Some "PING") true) crowdedWorld
  = (Return None, crowdedWorld).
Proof.
  split.
  - apply (onMessage_other_types (mkMessageEvent (Some "GET_VERSION") true)
             crowdedWorld).
    discriminate.
  - apply (onMessage_other_types (mkMessageEvent (Some "PING") true)
             crowdedWorld); discriminate.
Defined.

(** ** Background sync: re-seeding *)

Lemma evictDynamic_dynamic w :
  alist_get DYNAMIC_CACHE (caches (snd (evictDynamic w))) = Some (evicted w).
Proof.
  rewrite evictDynamic_run. cbn [snd caches].
  rewrite alist_get_delete_all, alist_get_opened. reflexivity.
Qed.

Lemma evicted_skipn w :
  NoDup (keys (entriesOf DYNAMIC_CACHE w)) ->
  evicted w =
  skipn (List.length (entriesOf DYNAMIC_CACHE w) - 50) (entriesOf DYNAMIC_CACHE w).
Proof.
  intros Hnd. unfold evicted, oldestRequests. rewrite keys_length.
  now apply remove_firstn_keys.
Qed.

Lemma cache_add_dynamic env rel w c :
  alist_get DYNAMIC_CACHE (caches w) = Some c ->
  alist_get DYNAMIC_CACHE (caches (snd (cache_add env DYNAMIC_CACHE rel w)))
  = Some (added env rel c).
Proof.
  intros Hc. pose proof (cache_add_run env DYNAMIC_CACHE rel w) as Hadd.
  cbv zeta in Hadd. unfold added.
  destruct (seedResponse env rel) as [r|].
  - rewrite Hadd. cbn [snd caches]. now rewrite alist_get_update, Hc.
  - destruct Hadd as [e ->]. exact Hc.
Qed.

Lemma try_catch_swallow_world (c : Js unit) w :
  snd (try_catch c (fun _ => ret tt) w) = snd (c w) /\
  fst (try_catch c (fun _ => ret tt) w) = Return tt.
Proof.
  unfold try_catch. destruct (c w) as [[[]|e] w']; auto.
Qed.

Lemma performBackgroundSync_dynamic env w :
  alist_get DYNAMIC_CACHE (caches (snd (performBackgroundSync env w)))
  = Some (added env "./index.html" (evicted w)).
Proof.
  unfold performBackgroundSync.
  rewrite (proj1 (try_catch_swallow_world _ w)).
  unfold bind. pose proof (evictDynamic_dynamic w) as Hev.
  rewrite evictDynamic_run in *. cbn [snd] in Hev.
  rewrite (proj1 (try_catch_swallow_world _ _)).
  now apply cache_add_dynamic.
Qed.

Lemma prefetchOracle_dynamic env w :
  alist_get DYNAMIC_CACHE (caches (snd (prefetchOracle env w)))
  = Some (added env "./" (entriesOf DYNAMIC_CACHE w)).
Proof.
  unfold prefetchOracle.
  rewrite (proj1 (try_catch_swallow_world _ w)).
  unfold bind. rewrite caches_open_run.
  rewrite (proj1 (try_catch_swallow_world _ _)).
  apply cache_add_dynamic. cbn [caches]. apply alist_get_opened.
Qed.

Lemma entriesOf_of_get name w c :
  alist_get name (caches w) = Some c -> entriesOf name w = c.
Proof. unfold entriesOf. now intros ->. Qed.

Lemma keys_app {V} (l l' : list (string * V)) :
  keys (l ++ l') = (keys l ++ keys l')%list.
Proof. apply map_app. Qed.

Lemma keys_skipn {V} n (l : list (string * V)) :
  keys (skipn n l) = skipn n (keys l).
Proof. unfold keys. symmetry. apply skipn_map. Qed.

Lemma NoDup_skipn_keys {A} n (l : list A) : NoDup l -> NoDup (skipn n l).
Proof.
  intros H. rewrite <- (firstn_skipn n l) in H.
  now apply NoDup_app_remove_l in H.
Qed.

(** Distinct keys stay distinct across [cache.add]. *)
Lemma NoDup_keys_added env rel c :
  NoDup (keys c) -> NoDup (keys (added env rel c)).
Proof.
  intros Hnd. unfold added.
  destruct (seedResponse env rel) as [r|]; [|exact Hnd].
  rewrite keys_app, keys_alist_remove. cbn [keys map fst].
  apply NoDup_app.
  - now apply NoDup_filter.
  - repeat constructor. simpl. tauto.
  - intros x Hx [<- | []]. apply filter_In in Hx.
    destruct Hx as [_ Hx]. now rewrite String.eqb_refl in Hx.
Qed.

Lemma length_added env rel c :
  List.length (added env rel c) <= S (List.length c).
Proof.
  unfold added.
  destruct (seedResponse env rel) as [r|]; [|lia].
  rewrite length_app. cbn [List.length]. unfold alist_remove.
  pose proof (filter_length_le
                (fun kv => negb (String.eqb (fst kv)
                                   (requestKey (requestOf env rel)))) c).
  lia.
Qed.

Lemma seedResponse_Some env rel r :
  seedResponse env rel = Some r <->
  isHttp (href (url (requestOf env rel))) = true /\
  network env (requestOf env rel) = Some r /\
  ok r = true /\ status r <> 206%Z.
Proof.
  unfold seedResponse.
  change (href (url (requestOf env rel))) with (href (resolve env rel)).
  destruct (isHttp (href (resolve env rel)));
    [|split; [discriminate | intros [H _]; discriminate H]].
  destruct (network env (requestOf env rel)) as [r'|];
    [|split; [discriminate | intros (_ & H & _); discriminate H]].
  destruct (ok r') eqn:Hok; cbn [andb].
  - destruct (Z.eqb (status r') 206) eqn:E; cbn [negb].
    + apply Z.eqb_eq in E. split; [discriminate|].
      intros (_ & H & _ & Hne). injection H as ->. contradiction.
    + apply Z.eqb_neq in E. split.
      * intros H. injection H as ->. auto.
      * intros (_ & H & _). exact H.
  - split; [discriminate|].
    intros (_ & H & Hok' & _). injection H as ->. congruence.
Qed.

Lemma added_stored env rel c r :
  isHttp (href (url (requestOf env rel))) = true ->
  network env (requestOf env rel) = Some r ->
  ok r = true ->
  status r <> 206%Z ->
  added env rel c =
  (alist_remove (requestKey (requestOf env rel)) c
   ++ [(requestKey (requestOf env rel), r)])%list.
Proof.
  intros Hhttp Hnet Hok H206. unfold added.
  now rewrite (proj2 (seedResponse_Some env rel r)).
Qed.

Lemma added_refused env rel c :
  isHttp (href (url (requestOf env rel))) = false \/
  network env (requestOf env rel) = None \/
  (exists r, network env (requestOf env rel) = Some r /\
             (ok r = false \/ status r = 206%Z)) ->
  added env rel c = c.
Proof.
  intros Hno. unfold added.
  destruct (seedResponse env rel) as [r|] eqn:E; [|reflexivity].
  apply seedResponse_Some in E. destruct E as (Hhttp & Hnet & Hok & H206).
  destruct Hno as [H | [H | (r' & H & [H' | H'])]]; congruence.
Qed.

(** X14: the background sync never rejects and leaves the dynamic
    generation with the entries the eviction kept, followed by the main
    document when [cache.add] stored it: its URL is http or https and its
    fetch gave a response that is [ok] and not a 206 (its previous entry,
    if any, is replaced). In every other case the kept entries are all
    there is. With distinct keys before, the generation ends with at most
    51 entries, and its keys are again distinct. *)
Theorem performBackgroundSync_reseeds :
  forall env w,
    NoDup (keys (entriesOf DYNAMIC_CACHE w)) ->
    let entries := entriesOf DYNAMIC_CACHE w in
    let kept := skipn (List.length entries - 50) entries in
    let w' := snd (performBackgroundSync env w) in
    let main := requestOf env "./index.html" in
    fst (performBackgroundSync env w) = Return tt /\
    (forall r,
       isHttp (href (url main)) = true ->
       network env main = Some r ->
       ok r = true ->
       status r <> 206%Z ->
       entriesOf DYNAMIC_CACHE w' =
       (alist_remove (requestKey main) kept ++ [(requestKey main, r)])%list) /\
    (isHttp (href (url main)) = false \/
     network env main = None \/
     (exists r, network env main = Some r /\
                (ok r = false \/ status r = 206%Z)) ->
     entriesOf DYNAMIC_CACHE w' = kept) /\
    List.length (entriesOf DYNAMIC_CACHE w') <= 51 /\
    NoDup (keys (entriesOf DYNAMIC_CACHE w')).
Proof.
  intros env w Hnd entries kept w'.
  assert (Hentries : entriesOf DYNAMIC_CACHE w' = added env "./index.html" kept).
  { unfold w'. erewrite entriesOf_of_get by apply performBackgroundSync_dynamic.
    now rewrite evicted_skipn. }
  split.
  { unfold performBackgroundSync. apply try_catch_swallow_world. }
  rewrite Hentries. split; [|split; [|split]].
  - intros r Hhttp Hnet Hok H206.
    now rewrite (added_stored env "./index.html" kept r Hhttp Hnet Hok H206).
  - intros Hno. now apply added_refused.
  - pose proof (length_added env "./index.html" kept) as Hlen.
    unfold kept in *. rewrite length_skipn in Hlen. lia.
  - apply NoDup_keys_added. unfold kept. rewrite keys_skipn.
    now apply NoDup_skipn_keys.
Qed.

Lemma performBackgroundSync_reseeds_witness :
  List.length
    (entriesOf DYNAMIC_CACHE
       (snd (performBackgroundSync (sampleEnv online) crowdedWorld)))
  <= 51 /\
  alist_get (appOrigin ++ "/index.html")
    (entriesOf DYNAMIC_CACHE
       (snd (performBackgroundSync (sampleEnv online) crowdedWorld)))
  = Some page /\
  List.length
    (entriesOf DYNAMIC_CACHE
       (snd (performBackgroundSync (sampleEnv (fun _ => Some partialPage))
               crowdedWorld)))
  = 50.
Proof.
  assert (Hnd : NoDup (keys (entriesOf DYNAMIC_CACHE crowdedWorld))).
  { apply distinct_NoDup. vm_compute. reflexivity. }
  split; [|split].
  - apply (performBackgroundSync_reseeds (sampleEnv online) crowdedWorld Hnd).
  - destruct (performBackgroundSync_reseeds (sampleEnv online) crowdedWorld Hnd)
      as (_ & Hstored & _).
    rewrite (Hstored page eq_refl eq_refl eq_refl ltac:(discriminate)).
    vm_compute. reflexivity.
  - destruct (performBackgroundSync_reseeds
                (sampleEnv (fun _ => Some partialPage)) crowdedWorld Hnd)
      as (_ & _ & Hrefused & _).
    rewrite Hrefused; [vm_compute; reflexivity|].
    right; right. exists partialPage. split; [reflexivity | now right].
Defined.

(** X15: a background sync during which [cache.add] stored the main
    document (an http or https URL, a response that is [ok] and not a 206)
    makes navigations safe offline: afterwards, a navigation for which
    [caches.match] has no answer while the network is down is answered by
    [cacheFirst] with a cached main document, never with the 503
    placeholder. *)
Theorem sync_then_offline_navigation :
  forall env w net' request r,
    isHttp (href (url (requestOf env "./index.html"))) = true ->
    network env (requestOf env "./index.html") = Some r ->
    ok r = true ->
    status r <> 206%Z ->
    mode request = "navigate" ->
    let w' := snd (performBackgroundSync env w) in
    let env' := mkEnv (location_origin env) (base_path env) net' in
    matchRequest request (caches w') = None ->
    net' request = None ->
    exists main,
      matchRequest (requestOf env "./index.html") (caches w') = Some main /\
      fst (cacheFirst env' request w') = Return main.
Proof.
  intros env w net' request r Hhttp Hnet Hok H206 Hnav w' env' Hmiss Hdown.
  assert (Hsome : matchRequest (requestOf env "./index.html") (caches w')
                  <> None).
  { unfold matchRequest. cbn [method requestOf String.eqb Ascii.eqb Bool.eqb].
    eapply storage_match_entry; [apply performBackgroundSync_dynamic|].
    rewrite (added_stored env "./index.html" _ r Hhttp Hnet Hok H206).
    rewrite alist_get_put, String.eqb_refl. discriminate. }
  destruct (matchRequest (requestOf env "./index.html") (caches w'))
    as [main|] eqn:E; [|congruence].
  exists main. split; [reflexivity|].
  rewrite (cacheFirst_down_run env' request w' Hmiss Hdown), Hnav.
  cbn [String.eqb Ascii.eqb Bool.eqb fst].
  change (requestOf env' "./index.html") with (requestOf env "./index.html").
  now rewrite E.
Qed.

Lemma sync_then_offline_navigation_witness :
  fst (cacheFirst (sampleEnv offline) (appRequest "/oracle" "navigate")
         (snd (performBackgroundSync (sampleEnv online) legacyWorld)))
  = Return page.
Proof.
  destruct (sync_then_offline_navigation (sampleEnv online) legacyWorld offline
              (appRequest "/oracle" "navigate") page
              eq_refl eq_refl eq_refl ltac:(discriminate) eq_refl eq_refl
              eq_refl) as [main [Hmain Hserved]].
  vm_compute in Hmain. injection Hmain as <-. exact Hserved.
Defined.

(** X16: [prefetchOracle] never rejects. When [cache.add] stores the app
    root (an http or https URL whose fetch gives a response that is [ok]
    and not a 206), that response becomes the last entry of the dynamic
    generation, replacing an earlier entry of the root; in every other case
    the entries of the dynamic generation are as they were. *)
Theorem prefetchOracle_spec :
  forall env w,
    let w' := snd (prefetchOracle env w) in
    let root := requestOf env "./" in
    fst (prefetchOracle env w) = Return tt /\
    (forall r,
       isHttp (href (url root)) = true ->
       network env root = Some r ->
       ok r = true ->
       status r <> 206%Z ->
       entriesOf DYNAMIC_CACHE w' =
       (alist_remove (requestKey root) (entriesOf DYNAMIC_CACHE w)
        ++ [(requestKey root, r)])%list) /\
    (isHttp (href (url root)) = false \/
     network env root = None \/
     (exists r, network env root = Some r /\
                (ok r = false \/ status r = 206%Z)) ->
     entriesOf DYNAMIC_CACHE w' = entriesOf DYNAMIC_CACHE w).
Proof.
  intros env w w' root.
  assert (Hentries : entriesOf DYNAMIC_CACHE w' =
                     added env "./" (entriesOf DYNAMIC_CACHE w)).
  { unfold w'. now erewrite entriesOf_of_get by apply prefetchOracle_dynamic. }
  split; [unfold prefetchOracle; apply try_catch_swallow_world|].
  rewrite Hentries. split.
  - intros r Hhttp Hnet Hok H206. now apply added_stored.
  - intros Hno. now apply added_refused.
Qed.

Lemma prefetchOracle_spec_witness :
  entriesOf DYNAMIC_CACHE (snd (prefetchOracle (sampleEnv offline) crowdedWorld))
  = entriesOf DYNAMIC_CACHE crowdedWorld /\
  entriesOf DYNAMIC_CACHE
    (snd (prefetchOracle (sampleEnv (fun _ => Some partialPage)) shellWorld))
  = entriesOf DYNAMIC_CACHE shellWorld /\
  entriesOf DYNAMIC_CACHE (snd (prefetchOracle (sampleEnv online) shellWorld))
  = [(appOrigin ++ "/api/oracle", oracleAnswer); (appOrigin ++ "/", page)].
Proof.
  split; [|split].
  - apply (proj2 (proj2 (prefetchOracle_spec (sampleEnv offline) crowdedWorld))).
    right; left. reflexivity.
  - apply (proj2 (proj2 (prefetchOracle_spec
                           (sampleEnv (fun _ => Some partialPage)) shellWorld))).
    right; right. exists partialPage. split; [reflexivity | now right].
  - rewrite (proj1 (proj2 (prefetchOracle_spec (sampleEnv online) shellWorld))
               page eq_refl eq_refl eq_refl ltac:(discriminate)).
    reflexivity.
Defined.

(** ** Cache statistics *)

Lemma opened_existing name (cs : CacheStorage) :
  In name (keys cs) -> opened name cs = cs.
Proof.
  intros Hin. apply alist_get_in_keys in Hin. unfold opened.
  destruct (alist_get name cs); [reflexivity | congruence].
Qed.

Lemma object_set_new k n stats :
  ~ In k (keys stats) -> object_set k n stats = (stats ++ [(k, n)])%list.
Proof.
  intros Hnot. unfold object_set.
  destruct (alist_get k stats) eqn:E; [|reflexivity].
  exfalso. apply Hnot, alist_get_in_keys. congruence.
Qed.

Lemma statsLoop_run names :
  forall stats w,
    (forall n, In n names -> In n (keys (caches w))) ->
    NoDup names ->
    (forall n, In n names -> ~ In n (keys stats)) ->
    fst (statsLoop names stats w) =
    Return (stats ++
            map (fun n => (n, List.length (entriesOf n w)))
              (filter (fun n => startsWith n "matteo-declic-") names))%list /\
    caches (snd (statsLoop names stats w)) = caches w.
Proof.
  induction names as [|n names IH]; intros stats w Hin Hnd Hfresh.
  - cbn [statsLoop filter map]. rewrite app_nil_r. auto.
  - inversion Hnd as [|? ? Hn Hnd']; subst.
    destruct (startsWith n "matteo-declic-") eqn:Hp.
    + assert (E : statsLoop (n :: names) stats w =
                  statsLoop names
                    (stats ++ [(n, List.length (entriesOf n w))])%list
                    (mkWorld (caches w)
                       (trace w ++ [EvCachesOpen n; EvCacheKeys n]))).
      { cbn [statsLoop]. rewrite Hp.
        unfold bind at 1. rewrite caches_open_run.
        rewrite opened_existing by (apply Hin; now left).
        unfold bind at 1. unfold cache_keys, bind, emit, get_caches, ret.
        cbn beta iota. cbn [caches trace].
        rewrite object_set_new by (apply Hfresh; now left).
        rewrite <- app_assoc. cbn [app]. unfold entriesOf.
        destruct (alist_get n (caches w)); now rewrite ?keys_length. }
      rewrite E. cbn [filter]. rewrite Hp.
      match goal with
      | |- context [statsLoop names ?s ?w1] =>
          destruct (IH s w1) as [Hres Hcs]
      end.
      * intros m Hm. cbn [caches]. apply Hin. now right.
      * exact Hnd'.
      * intros m Hm. rewrite keys_app, in_app_iff. cbn [keys map fst In].
        intros [H | [H | []]]; [|congruence].
        revert H. apply Hfresh. now right.
      * rewrite Hres, Hcs. cbn [caches map]. split; [|reflexivity].
        rewrite <- app_assoc. reflexivity.
    + cbn [statsLoop filter]. rewrite Hp. apply IH; auto.
      * intros m Hm. apply Hin. now right.
      * intros m Hm. apply Hfresh. now right.
Qed.

(** X17: on a storage with distinct generation names, [getCacheStats]
    returns one entry per generation of the application, in enumeration
    order, with the number of entries the generation holds; caches of other
    applications are not counted. Collecting the statistics changes no
    cache: every generation it opens exists. *)
Theorem getCacheStats_spec :
  forall w,
    NoDup (keys (caches w)) ->
    fst (getCacheStats w) =
    Return (map (fun n => (n, List.length (entriesOf n w))) (appGenerations w)) /\
    caches (snd (getCacheStats w)) = caches w.
Proof.
  intros w Hnd.
  destruct (statsLoop_run (keys (caches w)) []
              (mkWorld (caches w) (trace w ++ [EvCachesKeys])))
    as [Hres Hcs]; auto.
  unfold getCacheStats, try_catch, bind.
  unfold caches_keys, bind, emit, get_caches, ret.
  cbn beta iota. cbn [caches trace].
  destruct (statsLoop _ _ _) as [o w2]. cbn [fst snd] in *. subst o.
  cbn [fst snd app]. split; [reflexivity | exact Hcs].
Qed.

Lemma getCacheStats_spec_witness :
  fst (getCacheStats crowdedWorld)
  = Return [(STATIC_CACHE, 0); (DYNAMIC_CACHE, 73)].
Proof.
  assert (Hnd : NoDup (keys (caches crowdedWorld))).
  { apply distinct_NoDup. vm_compute. reflexivity. }
  rewrite (proj1 (getCacheStats_spec crowdedWorld Hnd)). vm_compute. reflexivity.
Defined.

(** ** Installation: when the seed succeeds *)

Lemma emitsOnly_refl P w : emitsOnly P w w.
Proof. exists []. split; [now rewrite app_nil_r | constructor]. Qed.

Lemma emitsOnly_trans P w1 w2 w3 :
  emitsOnly P w1 w2 -> emitsOnly P w2 w3 -> emitsOnly P w1 w3.
Proof.
  intros (es & E & H) (es' & E' & H'). exists (es ++ es')%list. split.
  - now rewrite E', E, app_assoc.
  - apply Forall_app. now split.
Qed.

Lemma emitsOnly_emit (P : Event -> Prop) e : P e -> respects (emitsOnly P) (emit e).
Proof. intros He w. exists [e]. split; [reflexivity | now constructor]. Qed.

Lemma quiet_bind {A B} (c : Js A) (k : A -> Js B) :
  respects (emitsOnly notSkipWaiting) c ->
  (forall a, respects (emitsOnly notSkipWaiting) (k a)) ->
  respects (emitsOnly notSkipWaiting) (bind c k).
Proof. apply respects_bind, emitsOnly_trans. Qed.

Lemma quiet_emit e :
  e <> EvSkipWaiting -> respects (emitsOnly notSkipWaiting) (emit e).
Proof. intros He. now apply emitsOnly_emit. Qed.

Lemma quiet_ret {A} (a : A) : respects (emitsOnly notSkipWaiting) (ret a).
Proof. apply respects_ret, emitsOnly_refl. Qed.

Lemma quiet_caches_open name : respects (emitsOnly notSkipWaiting) (caches_open name).
Proof.
  intros w. rewrite caches_open_run. exists [EvCachesOpen name].
  split; [reflexivity|]. repeat constructor. discriminate.
Qed.

Lemma quiet_cache_put name u r : respects (emitsOnly notSkipWaiting) (store_entry name u r).
Proof.
  intros w. exists [EvCachePut name u].
  split; [reflexivity|]. repeat constructor. discriminate.
Qed.

Lemma quiet_fetch_ok env rel : respects (emitsOnly notSkipWaiting) (fetch_ok env rel).
Proof.
  intros w. rewrite fetch_ok_run. cbv zeta.
  destruct (isHttp (href (url (requestOf env rel)))).
  - exists [EvFetch (href (url (requestOf env rel)))].
    split; [reflexivity|]. repeat constructor. discriminate.
  - apply emitsOnly_refl.
Qed.

Lemma quiet_put_all name l : respects (emitsOnly notSkipWaiting) (put_all name l).
Proof.
  induction l as [|[u r] l IH]; cbn [put_all]; [apply quiet_ret|].
  apply quiet_bind; [apply quiet_cache_put | auto].
Qed.

Lemma quiet_cache_addAll env name rels :
  respects (emitsOnly notSkipWaiting) (cache_addAll env name rels).
Proof.
  unfold cache_addAll. apply quiet_bind.
  - apply respects_promise_all; [apply emitsOnly_refl | apply emitsOnly_trans|].
    apply Forall_map, Forall_forall. intros rel _. apply quiet_fetch_ok.
  - intros l. apply quiet_put_all.
Qed.


(** The two branches of the install listener. *)
Lemma promise_all_pair {A} (p q : Js A) w :
  snd (promise_all [p; q] w) = snd (q (snd (p w))) /\
  fulfilled (fst (promise_all [p; q] w)) =
  fulfilled (fst (p w)) && fulfilled (fst (q (snd (p w)))).
Proof.
  cbn [promise_all]. destruct (p w) as [o w1]. cbn [fst snd].
  destruct (q w1) as [o' w2]. unfold ret. cbn [fst snd].
  destruct o, o'; auto.
Qed.

Lemma fulfilled_allSettled {A} (ps : list (Js A)) w :
  fulfilled (fst (promise_allSettled ps w)) = true.
Proof.
  revert w. induction ps as [|p ps IH]; intros w; [reflexivity|].
  cbn [promise_allSettled]. destruct (p w) as [o w1].
  specialize (IH w1). destruct (promise_allSettled ps w1) as [[l|e] w2];
    [reflexivity | discriminate IH].
Qed.

Lemma fulfilled_fetch_all env rels w :
  fulfilled (fst (promise_all (map (fetch_ok env) rels) w))
  = forallb (fetchable env) rels.
Proof.
  revert w. induction rels as [|rel rels IH]; intros w; [reflexivity|].
  cbn [map promise_all forallb].
  assert (Hhead : fulfilled (fst (fetch_ok env rel w)) = fetchable env rel).
  { rewrite fetch_ok_run. cbv zeta. unfold fetchable, seedResponse.
    change (href (url (requestOf env rel))) with (href (resolve env rel)).
    destruct (isHttp (href (resolve env rel))); [|reflexivity].
    destruct (network env (requestOf env rel)) as [r|]; [|reflexivity].
    now destruct (ok r && negb (Z.eqb (status r) 206)). }
  destruct (fetch_ok env rel w) as [o w1]. cbn [fst] in Hhead.
  specialize (IH w1). destruct (promise_all (map (fetch_ok env) rels) w1) as [os w2].
  cbn [fst] in *. rewrite <- Hhead, <- IH. now destruct o, os.
Qed.

Lemma fulfilled_put_all name l w : fulfilled (fst (put_all name l w)) = true.
Proof.
  revert w. induction l as [|[u r] l IH]; intros w; [reflexivity|].
  cbn [put_all]. unfold bind. unfold store_entry at 1. js_unfold. apply IH.
Qed.

Lemma onInstall_unfold env :
  onInstall env =
  try_catch
    (promise_all [seedRequired env; seedOptional env] ;; skipWaiting)
    (fun error => ret tt).
Proof. reflexivity. Qed.

Lemma fulfilled_seedRequired env w :
  fulfilled (fst (seedRequired env w)) = forallb (fetchable env) STATIC_ASSETS.
Proof.
  unfold seedRequired. unfold bind at 1. rewrite caches_open_run.
  unfold cache_addAll, bind.
  rewrite <- (fulfilled_fetch_all env STATIC_ASSETS
                (mkWorld (opened STATIC_CACHE (caches w))
                   (trace w ++ [EvCachesOpen STATIC_CACHE]))).
  destruct (promise_all _ _) as [[l|e] w1]; cbn [fst fulfilled]; [|reflexivity].
  apply fulfilled_put_all.
Qed.

Lemma fulfilled_seedOptional env w : fulfilled (fst (seedOptional env w)) = true.
Proof.
  unfold seedOptional. unfold bind at 1. rewrite caches_open_run.
  unfold bind.
  match goal with
  | |- context [promise_allSettled ?ps ?w1] =>
      pose proof (fulfilled_allSettled ps w1) as H;
      destruct (promise_allSettled ps w1) as [[l|e] w2]
  end; [reflexivity | discriminate H].
Qed.

Lemma quiet_seedRequired env : respects (emitsOnly notSkipWaiting) (seedRequired env).
Proof.
  unfold seedRequired. apply quiet_bind; [apply quiet_caches_open|].
  intros _. apply quiet_cache_addAll.
Qed.

Lemma quiet_seedOptional env : respects (emitsOnly notSkipWaiting) (seedOptional env).
Proof.
  unfold seedOptional. apply quiet_bind; [apply quiet_caches_open|].
  intros _. apply quiet_bind; [|intros; apply quiet_ret].
  apply respects_promise_allSettled;
    [apply emitsOnly_refl | apply emitsOnly_trans|].
  apply Forall_map, Forall_forall. intros asset _.
  apply respects_try_catch;
    [apply emitsOnly_trans | | intros; apply quiet_ret].
  apply quiet_cache_addAll.
Qed.

Lemma skippedWaiting_quiet es : Forall notSkipWaiting es -> skippedWaiting es = false.
Proof.
  induction 1 as [|e es He Hes IH]; [reflexivity|].
  unfold skippedWaiting in *. cbn [existsb]. rewrite IH.
  destruct e; try reflexivity. now elim He.
Qed.

Lemma skippedWaiting_app es es' :
  skippedWaiting (es ++ es') = skippedWaiting es || skippedWaiting es'.
Proof. unfold skippedWaiting. apply existsb_app. Qed.

(** The world the install listener leaves: the two seeds in turn, then
    [skipWaiting] when the required seed went through. *)
Lemma onInstall_world env w :
  let w2 := snd (seedOptional env (snd (seedRequired env w))) in
  snd (onInstall env w) =
  if forallb (fetchable env) STATIC_ASSETS
  then mkWorld (caches w2) (trace w2 ++ [EvSkipWaiting])
  else w2.
Proof.
  intros w2. rewrite onInstall_unfold. unfold try_catch, bind.
  destruct (promise_all_pair (seedRequired env) (seedOptional env) w)
    as [Hworld Hful].
  rewrite fulfilled_seedRequired, fulfilled_seedOptional, andb_true_r in Hful.
  fold w2 in Hworld.
  destruct (promise_all [seedRequired env; seedOptional env] w) as [o w3].
  cbn [fst snd] in *. subst w3. rewrite <- Hful.
  destruct o; reflexivity.
Qed.

Lemma seedRequired_failed env w :
  forallb (fetchable env) STATIC_ASSETS = false ->
  caches (snd (seedRequired env w)) = opened STATIC_CACHE (caches w).
Proof.
  intros Hfail. unfold seedRequired. unfold bind at 1. rewrite caches_open_run.
  unfold cache_addAll, bind.
  match goal with
  | |- context [promise_all ?ps ?w1] =>
      pose proof (fulfilled_fetch_all env STATIC_ASSETS w1) as Hful;
      pose proof (respects_promise_all sameCaches
                    (fun w => eq_refl)
                    (fun a b c (H1 : sameCaches a b) (H2 : sameCaches b c) =>
                       eq_trans H2 H1)
                    ps) as Hsame;
      specialize (Hsame
                    (proj2 (Forall_map _ _ _)
                       (proj2 (Forall_forall _ _)
                          (fun rel _ =>
                             respects_fetch_ok sameCaches
                               (fun w => eq_refl)
                               (fun a b c (H1 : sameCaches a b)
                                    (H2 : sameCaches b c) => eq_trans H2 H1)
                               (fun a b H => H) env rel))) w1);
      destruct (promise_all ps w1) as [[l|e] w2]
  end; cbn [fst snd fulfilled] in *; [congruence|exact Hsame].
Qed.

(** X18: the install listener calls [skipWaiting] exactly when
    [cache.addAll] stored the required assets: every required URL is http
    or https and was fetched with a response that is [ok] and not a 206;
    the optional icons play no part in it. When a required asset fails, the
    static generation keeps the entries it had: none of the required assets
    is stored. *)
Theorem onInstall_skipWaiting_iff_required :
  forall env w,
    let w' := snd (onInstall env w) in
    skippedWaiting (newEvents w w') = forallb (fetchable env) STATIC_ASSETS /\
    (forallb (fetchable env) STATIC_ASSETS = false ->
     entriesOf STATIC_CACHE w' = entriesOf STATIC_CACHE w) /\
    (forall rel,
       fetchable env rel = true <->
       exists r,
         isHttp (href (url (requestOf env rel))) = true /\
         network env (requestOf env rel) = Some r /\
         ok r = true /\ status r <> 206%Z).
Proof.
  intros env w w'.
  assert (Hmeaning : forall rel,
             fetchable env rel = true <->
             exists r,
               isHttp (href (url (requestOf env rel))) = true /\
               network env (requestOf env rel) = Some r /\
               ok r = true /\ status r <> 206%Z).
  { intros rel. unfold fetchable. split.
    - destruct (seedResponse env rel) as [r|] eqn:E; [|discriminate].
      intros _. exists r. now apply seedResponse_Some.
    - intros [r Hr]. apply seedResponse_Some in Hr. now rewrite Hr. }
  cut (skippedWaiting (newEvents w w') = forallb (fetchable env) STATIC_ASSETS /\
       (forallb (fetchable env) STATIC_ASSETS = false ->
        entriesOf STATIC_CACHE w' = entriesOf STATIC_CACHE w));
    [tauto|].
  clear Hmeaning.
  unfold w'. rewrite onInstall_world.
  destruct (quiet_seedRequired env w) as (es1 & E1 & H1).
  destruct (quiet_seedOptional env (snd (seedRequired env w))) as (es2 & E2 & H2).
  set (w2 := snd (seedOptional env (snd (seedRequired env w)))) in *.
  assert (Htrace : trace w2 = (trace w ++ (es1 ++ es2))%list).
  { now rewrite E2, E1, app_assoc. }
  assert (Hquiet : skippedWaiting (es1 ++ es2) = false).
  { apply skippedWaiting_quiet, Forall_app. now split. }
  split.
  - destruct (forallb (fetchable env) STATIC_ASSETS).
    + cbn [trace]. rewrite Htrace, <- app_assoc, newEvents_app.
      rewrite skippedWaiting_app, Hquiet. reflexivity.
    + destruct w2 as [cs2 tr2]. cbn [trace] in Htrace. subst tr2.
      now rewrite newEvents_app.
  - intros Hfail. rewrite Hfail. unfold entriesOf.
    replace (alist_get STATIC_CACHE (caches w2))
      with (alist_get STATIC_CACHE (caches (snd (seedRequired env w)))).
    + rewrite (seedRequired_failed env w Hfail), alist_get_opened. reflexivity.
    + symmetry. unfold w2.
      assert (Hframe : respects (sameOutside DYNAMIC_CACHE) (seedOptional env)).
      { unfold seedOptional.
        apply respects_bind;
          [apply sameOutside_trans | apply sameOutside_open |].
        intros _. apply respects_bind;
          [apply sameOutside_trans | |
           intros; apply respects_ret, sameOutside_refl].
        apply respects_promise_allSettled;
          [apply sameOutside_refl | apply sameOutside_trans|].
        apply Forall_map, Forall_forall. intros asset _.
        apply respects_try_catch;
          [apply sameOutside_trans | |
           intros; apply respects_ret, sameOutside_refl].
        apply respects_cache_add;
          [apply sameOutside_refl | apply sameOutside_trans
          | apply sameOutside_storage | apply sameOutside_put]. }
      apply Hframe. discriminate.
Qed.

Lemma onInstall_skipWaiting_iff_required_witness :
  entriesOf STATIC_CACHE
    (snd (onInstall (sampleEnv mainDocumentDown) crowdedWorld))
  = entriesOf STATIC_CACHE crowdedWorld /\
  entriesOf STATIC_CACHE
    (snd (onInstall (sampleEnv partialMainDocument) crowdedWorld))
  = entriesOf STATIC_CACHE crowdedWorld /\
  skippedWaiting
    (newEvents crowdedWorld
       (snd (onInstall (sampleEnv partialMainDocument) crowdedWorld)))
  = false.
Proof.
  split; [|split].
  - apply (proj1 (proj2 (onInstall_skipWaiting_iff_required
                           (sampleEnv mainDocumentDown) crowdedWorld))).
    reflexivity.
  - apply (proj1 (proj2 (onInstall_skipWaiting_iff_required
                           (sampleEnv partialMainDocument) crowdedWorld))).
    reflexivity.
  - rewrite (proj1 (onInstall_skipWaiting_iff_required
                      (sampleEnv partialMainDocument) crowdedWorld)).
    reflexivity.
Defined.

Lemma fetch_all_keys env rels :
  forall w l,
    fst (promise_all (map (fetch_ok env) rels) w) = Return l ->
    keys l = map (fun rel => requestKey (requestOf env rel)) rels.
Proof.
  induction rels as [|rel rels IH]; intros w l.
  - cbn. intros H. injection H as <-. reflexivity.
  - cbn [map promise_all].
    assert (Hhead : forall a, fst (fetch_ok env rel w) = Return a ->
                              fst a = requestKey (requestOf env rel)).
    { rewrite fetch_ok_run. cbv zeta.
      destruct (isHttp (href (url (requestOf env rel)))); [|discriminate].
      destruct (network env (requestOf env rel)) as [r|]; [|discriminate].
      destruct (ok r && negb (Z.eqb (status r) 206)); [|discriminate].
      cbn [fst]. intros a H. injection H as <-. reflexivity. }
    destruct (fetch_ok env rel w) as [o w1]. cbn [fst] in Hhead.
    specialize (IH w1).
    destruct (promise_all (map (fetch_ok env) rels) w1) as [os w2].
    cbn [fst] in *. destruct o as [a|e]; [|discriminate].
    destruct os as [l'|e]; [|discriminate].
    intros H. injection H as <-. cbn [keys map].
    f_equal; [now apply Hhead | now apply IH].
Qed.

Lemma cache_put_cached name u r w :
  In name (keys (caches w)) ->
  storage_match u (caches (snd (store_entry name u r w))) <> None.
Proof.
  intros Hin. apply alist_get_in_keys in Hin.
  destruct (alist_get name (caches w)) as [c|] eqn:E; [|congruence].
  unfold store_entry. js_unfold. cbn [snd caches].
  eapply storage_match_entry.
  - rewrite alist_get_update, E. reflexivity.
  - rewrite alist_get_put, String.eqb_refl. discriminate.
Qed.

Lemma put_all_cached name l :
  forall w u,
    In name (keys (caches w)) ->
    In u (keys l) ->
    storage_match u (caches (snd (put_all name l w))) <> None.
Proof.
  induction l as [|[u0 r0] l IH]; intros w u Hname Hu; [destruct Hu|].
  cbn [put_all]. unfold bind.
  pose proof (cache_put_cached name u0 r0 w Hname) as Hput.
  assert (Hname' : In name (keys (caches (snd (store_entry name u0 r0 w))))).
  { unfold store_entry. js_unfold. cbn [snd caches].
    now rewrite keys_alist_update. }
  destruct (store_entry name u0 r0 w) as [[[]|e] w1] eqn:E; cbn [fst snd] in *.
  - destruct (in_dec string_dec u (keys l)) as [Hin | Hnot].
    + now apply IH.
    + destruct Hu as [<- | Hu]; [|contradiction].
      cbn [fst] in *.
      assert (Hstays : respects staysCached (put_all name l)).
      { clear. induction l as [|[u r] l IH]; cbn [put_all].
        - apply respects_ret, staysCached_refl.
        - apply respects_bind;
            [apply staysCached_trans | apply staysCached_put | auto]. }
      now apply Hstays.
  - unfold store_entry in E. js_unfold. discriminate E.
Qed.

Lemma seedRequired_cached env w rel :
  forallb (fetchable env) STATIC_ASSETS = true ->
  In rel STATIC_ASSETS ->
  storage_match (requestKey (requestOf env rel))
    (caches (snd (seedRequired env w)))
  <> None.
Proof.
  intros Hall Hrel. unfold seedRequired. unfold bind at 1.
  rewrite caches_open_run. unfold cache_addAll, bind.
  match goal with
  | |- context [promise_all ?ps ?w1] =>
      pose proof (fulfilled_fetch_all env STATIC_ASSETS w1) as Hful;
      pose proof (fetch_all_keys env STATIC_ASSETS w1) as Hkeys;
      pose proof (respects_promise_all sameCaches
                    (fun w => eq_refl)
                    (fun a b c (H1 : sameCaches a b) (H2 : sameCaches b c) =>
                       eq_trans H2 H1)
                    ps) as Hsame;
      specialize (Hsame
                    (proj2 (Forall_map _ _ _)
                       (proj2 (Forall_forall _ _)
                          (fun rel _ =>
                             respects_fetch_ok sameCaches
                               (fun w => eq_refl)
                               (fun a b c (H1 : sameCaches a b)
                                    (H2 : sameCaches b c) => eq_trans H2 H1)
                               (fun a b H => H) env rel))) w1);
      destruct (promise_all ps w1) as [[l|e] w2]
  end; cbn [fst snd fulfilled] in *; [|congruence].
  apply put_all_cached.
  - unfold sameCaches in Hsame. rewrite Hsame. cbn [caches].
    apply in_keys_opened.
  - rewrite (Hkeys l eq_refl).
    now apply (in_map (fun rel => requestKey (requestOf env rel))).
Qed.

Lemma staysCached_seedOptional env : respects staysCached (seedOptional env).
Proof.
  unfold seedOptional.
  apply respects_bind; [apply staysCached_trans | apply staysCached_open |].
  intros _. apply respects_bind;
    [apply staysCached_trans | | intros; apply respects_ret, staysCached_refl].
  apply respects_promise_allSettled;
    [apply staysCached_refl | apply staysCached_trans|].
  apply Forall_map, Forall_forall. intros asset _.
  apply respects_try_catch;
    [apply staysCached_trans | | intros; apply respects_ret, staysCached_refl].
  apply respects_cache_add;
    [apply staysCached_refl | apply staysCached_trans
    | apply staysCached_storage | apply staysCached_put].
Qed.

(** X19: an installation during which [cache.addAll] stored the required
    assets (each URL http or https, each fetch answered with a response
    that is [ok] and not a 206) leaves each of them cached, whatever
    happened to the icons. From then on [cacheFirst] answers a GET for any
    of them, the main document included and whatever the fragment, from the
    cache on any network, without a fetch. *)
Theorem onInstall_seeds_required :
  forall env w,
    forallb (fetchable env) STATIC_ASSETS = true ->
    let w' := snd (onInstall env w) in
    forall rel,
      In rel STATIC_ASSETS ->
      matchRequest (requestOf env rel) (caches w') <> None /\
      (forall env' request,
         method request = "GET" ->
         requestKey request = requestKey (requestOf env rel) ->
         exists cached,
           fst (cacheFirst env' request w') = Return cached /\
           caches (snd (cacheFirst env' request w')) = caches w' /\
           fetchCount (newEvents w' (snd (cacheFirst env' request w'))) = 0).
Proof.
  intros env w Hall w' rel Hrel.
  assert (Hcached : storage_match (requestKey (requestOf env rel)) (caches w')
                    <> None).
  { unfold w'. rewrite onInstall_world, Hall. cbn [caches].
    apply staysCached_seedOptional. now apply seedRequired_cached. }
  split; [exact Hcached|].
  intros env' request Hget Hkey.
  assert (Hhit : matchRequest request (caches w') <> None).
  { unfold matchRequest. rewrite Hget, Hkey. exact Hcached. }
  destruct (matchRequest request (caches w')) as [cached|] eqn:E; [|congruence].
  exists cached. rewrite (cacheFirst_hit_run env' request w' cached E).
  cbn [fst snd caches]. rewrite newEvents_app. auto.
Qed.

Lemma onInstall_seeds_required_witness :
  matchRequest (requestOf (sampleEnv iconsMissing) "./index.html")
    (caches (snd (onInstall (sampleEnv iconsMissing) legacyWorld)))
  <> None /\
  fetchCount
    (newEvents (snd (onInstall (sampleEnv iconsMissing) legacyWorld))
       (snd (cacheFirst (sampleEnv offline)
               (fragmentRequest "/index.html" "top" "navigate")
               (snd (onInstall (sampleEnv iconsMissing) legacyWorld)))))
  = 0.
Proof.
  destruct (onInstall_seeds_required (sampleEnv iconsMissing) legacyWorld
              eq_refl "./index.html" ltac:(simpl; auto)) as [Hcached Hserved].
  split; [exact Hcached|].
  destruct (Hserved (sampleEnv offline)
              (fragmentRequest "/index.html" "top" "navigate")
              eq_refl eq_refl) as [cached [_ [_ Hnone]]].
  exact Hnone.
Defined.

(** ** Notification clicks *)

Lemma focusFirst_find env target clients :
  focusFirst env target clients =
  match find (isAppWindow env) clients with
  | Some client =>
      Some (Focus client ::
            (if canNavigate client && negb (includes (clientUrl client) target)
             then [Navigate client target] else []))
  | None => None
  end.
Proof.
  induction clients as [|client rest IH]; [reflexivity|].
  cbn [focusFirst find]. unfold isAppWindow at 1.
  destruct (includes (clientUrl client) (location_origin env));
    [reflexivity | exact IH].
Qed.

Lemma onNotificationClick_unfold env canOpen clients dataUrl action :
  action <> "dismiss" ->
  onNotificationClick env canOpen clients dataUrl action =
  openOrFocusApp env canOpen clients (clickTarget dataUrl action).
Proof.
  intros Hd. apply String.eqb_neq in Hd.
  unfold onNotificationClick, clickTarget.
  destruct (String.eqb action "open-oracle"); [reflexivity|].
  now rewrite Hd.
Qed.

(** X20: a click on a notification. The dismiss action does nothing. Any
    other click focuses the first window of the application, in the order
    the platform lists the clients, navigates it when it can be navigated
    and its URL does not contain the target, and opens no window; only when
    the application has no window does the click open one, at the target,
    if the platform lets it. *)
Theorem onNotificationClick_spec :
  forall env canOpen clients dataUrl action,
    let actions := onNotificationClick env canOpen clients dataUrl action in
    let target := clickTarget dataUrl action in
    (action = "dismiss" -> actions = []) /\
    (action <> "dismiss" ->
     forall client,
       find (isAppWindow env) clients = Some client ->
       actions =
       Focus client ::
       (if canNavigate client && negb (includes (clientUrl client) target)
        then [Navigate client target] else []) /\
       existsb isOpenWindow actions = false) /\
    (action <> "dismiss" ->
     find (isAppWindow env) clients = None ->
     actions = if canOpen then [OpenWindow target] else []).
Proof.
  intros env canOpen clients dataUrl action actions target.
  split; [|split].
  - intros ->. reflexivity.
  - intros Hd client Hfind. unfold actions.
    rewrite (onNotificationClick_unfold _ _ _ _ _ Hd).
    unfold openOrFocusApp. rewrite focusFirst_find, Hfind. fold target.
    split; [reflexivity|].
    now destruct (canNavigate client && negb (includes (clientUrl client) target)).
  - intros Hd Hfind. unfold actions.
    rewrite (onNotificationClick_unfold _ _ _ _ _ Hd).
    unfold openOrFocusApp. now rewrite focusFirst_find, Hfind.
Qed.

Lemma onNotificationClick_spec_witness :
  onNotificationClick (sampleEnv offline) true sampleClients
    (Some "./?source=notification") "dismiss" = [] /\
  existsb isOpenWindow
    (onNotificationClick (sampleEnv offline) true sampleClients
       (Some "./?source=notification") "open-oracle") = false /\
  onNotificationClick (sampleEnv offline) true
    [mkClient "https://elsewhere.example/" true]
    (Some "./?source=notification") "" =
  [OpenWindow "./?source=notification"].
Proof.
  split; [|split].
  - apply (onNotificationClick_spec (sampleEnv offline) true sampleClients
             (Some "./?source=notification") "dismiss").
    reflexivity.
  - apply (proj1 (proj2 (onNotificationClick_spec (sampleEnv offline) true
                           sampleClients (Some "./?source=notification")
                           "open-oracle"))
             ltac:(discriminate) (mkClient (appOrigin ++ "/") true)).
    reflexivity.
  - apply (proj2 (proj2 (onNotificationClick_spec (sampleEnv offline) true
                           [mkClient "https://elsewhere.example/" true]
                           (Some "./?source=notification") ""))).
    + discriminate.
    + reflexivity.
Defined.

(** ** The sync listener *)

Lemma prefetchOracle_fulfils env w : fst (prefetchOracle env w) = Return tt.
Proof. unfold prefetchOracle. apply try_catch_swallow_world. Qed.

Lemma performBackgroundSync_fulfils env w :
  fst (performBackgroundSync env w) = Return tt.
Proof. unfold performBackgroundSync. apply try_catch_swallow_world. Qed.

(** X21: the promise the sync listener hands to [waitUntil] fulfils for
    every tag, on every storage and network: failures of the background
    work are swallowed, so the platform is never asked to retry a sync. A
    tag the listener does not know changes nothing. *)
Theorem onSync_always_fulfils :
  forall env tag w,
    fst (onSync env tag w) = Return tt /\
    (tag <> "background-sync" -> tag <> "oracle-prefetch" ->
     onSync env tag w = (Return tt, w)).
Proof.
  intros env tag w. unfold onSync.
  destruct (String.eqb tag "background-sync") eqn:E1.
  { apply String.eqb_eq in E1.
    split; [apply performBackgroundSync_fulfils | congruence]. }
  destruct (String.eqb tag "oracle-prefetch") eqn:E2.
  { apply String.eqb_eq in E2.
    split; [apply prefetchOracle_fulfils | congruence]. }
  split; reflexivity.
Qed.

Lemma onSync_always_fulfils_witness :
  onSync (sampleEnv offline) "periodic" crowdedWorld = (Return tt, crowdedWorld).
Proof.
  apply (onSync_always_fulfils (sampleEnv offline) "periodic" crowdedWorld);
    discriminate.
Defined.

(** X22: eviction is idempotent. On a dynamic generation with distinct
    keys, the eviction leaves at most 50 entries with distinct keys, and a
    second eviction right after deletes nothing. *)
Theorem evictDynamic_idempotent :
  forall w,
    NoDup (keys (entriesOf DYNAMIC_CACHE w)) ->
    let w1 := snd (evictDynamic w) in
    let w2 := snd (evictDynamic w1) in
    List.length (entriesOf DYNAMIC_CACHE w1) <= 50 /\
    NoDup (keys (entriesOf DYNAMIC_CACHE w1)) /\
    entriesOf DYNAMIC_CACHE w2 = entriesOf DYNAMIC_CACHE w1 /\
    deletedFrom DYNAMIC_CACHE (newEvents w1 w2) = [].
Proof.
  intros w Hnd w1 w2.
  assert (H1 : entriesOf DYNAMIC_CACHE w1 =
               skipn (List.length (entriesOf DYNAMIC_CACHE w) - 50)
                 (entriesOf DYNAMIC_CACHE w)).
  { unfold w1. erewrite entriesOf_of_get by apply evictDynamic_dynamic.
    now apply evicted_skipn. }
  assert (Hlen : List.length (entriesOf DYNAMIC_CACHE w1) <= 50).
  { rewrite H1, length_skipn. lia. }
  assert (Hnd1 : NoDup (keys (entriesOf DYNAMIC_CACHE w1))).
  { rewrite H1, keys_skipn. now apply NoDup_skipn_keys. }
  split; [exact Hlen|]. split; [exact Hnd1|]. split.
  - unfold w2. erewrite entriesOf_of_get by apply evictDynamic_dynamic.
    rewrite (evicted_skipn w1 Hnd1).
    replace (List.length (entriesOf DYNAMIC_CACHE w1) - 50) with 0 by lia.
    reflexivity.
  - unfold w2. rewrite evictDynamic_run. cbn [snd].
    rewrite newEvents_app. cbn [deletedFrom].
    rewrite deletedFrom_deletes. unfold oldestRequests.
    rewrite keys_length.
    replace (List.length (entriesOf DYNAMIC_CACHE w1) - 50) with 0 by lia.
    reflexivity.
Qed.

Lemma evictDynamic_idempotent_witness :
  entriesOf DYNAMIC_CACHE (snd (evictDynamic (snd (evictDynamic crowdedWorld))))
  = entriesOf DYNAMIC_CACHE (snd (evictDynamic crowdedWorld)).
Proof.
  assert (Hnd : NoDup (keys (entriesOf DYNAMIC_CACHE crowdedWorld))).
  { apply distinct_NoDup. vm_compute. reflexivity. }
  apply (evictDynamic_idempotent crowdedWorld Hnd).
Defined.
